(** * PyExifTool: a shallow embedding of [exiftool.py]

    The module drives one long-lived [exiftool] subprocess over its
    standard input and output.  This development models the session
    object ([ExifTool]), the framing of a response by the end-of-output
    sentinel, and the two metadata views ([FileMetadata] and
    [MultiFileMetadata]), and proves properties of them. *)

From Stdlib Require Import Strings.Byte.
From stdpp Require Import base option list gmap strings.

Open Scope string_scope.
Open Scope list_scope.

(** ** Byte strings (Python [bytes]) *)

Abbreviation bytes := (list byte).

#[global] Instance byte_eq_decision : EqDecision byte := Byte.byte_eq_dec.

(** A bytes literal [b"..."]. *)
Definition lit (s : string) : bytes := String.list_byte_of_string s.

(** [b"\n"] *)
Definition nl : bytes := [x0a].

(** The bytes that [bytes.strip()] removes: space, [\t], [\n], [\v],
    [\f] and [\r]. *)
Definition is_space (c : byte) : bool :=
  match c with
  | x09 | x0a | x0b | x0c | x0d | x20 => true
  | _ => false
  end.

Fixpoint lstrip (l : bytes) : bytes :=
  match l with
  | [] => []
  | c :: t => if is_space c then lstrip t else l
  end.

Definition rstrip (l : bytes) : bytes := rev (lstrip (rev l)).

(** [l.strip()] *)
Definition strip (l : bytes) : bytes := rstrip (lstrip l).

(** [l[-n:]] for [n > 0]: the last [n] bytes, all of [l] when it is
    shorter. *)
Definition last_bytes (n : nat) (l : bytes) : bytes :=
  drop (length l - n) l.

(** [l[:-n]] for [n > 0]: all but the last [n] bytes, nothing when [l]
    is shorter. *)
Definition drop_last (n : nat) (l : bytes) : bytes :=
  take (length l - n) l.

(** [l.endswith(suf)] *)
Definition endswith (l suf : bytes) : bool :=
  bool_decide (last_bytes (length suf) l = suf).

(** Whether [l] is whitespace only. *)
Definition is_blank (l : bytes) : bool := forallb is_space l.

(** Whether [sub] occurs in [l] as a block of consecutive bytes. *)
Fixpoint occurs (sub l : bytes) : bool :=
  match l with
  | [] => bool_decide (sub = [])
  | _ :: t => bool_decide (take (length sub) l = sub) || occurs sub t
  end.

(** [sep.join(parts)] *)
Fixpoint join (sep : bytes) (parts : list bytes) : bytes :=
  match parts with
  | [] => []
  | [p] => p
  | p :: rest => p ++ sep ++ join sep rest
  end.

(** ** Module constants *)

Definition executable_default : string := "exiftool".

(** Sentinel indicating the end of the output of a sequence of
    commands. *)
Definition sentinel : bytes := lit "{ready}".

(** The block size when reading from exiftool. *)
Definition block_size : nat := 4096.

(** The sentinel is an opening brace, then bytes that are neither a
    brace nor whitespace. *)
Definition brace : byte := "{"%byte.
Definition sentinel_tail : bytes := lit "ready}".

Arguments lit : simpl never.
Arguments sentinel : simpl never.
Arguments sentinel_tail : simpl never.

(** ** Values, exceptions and outcomes *)

(** What [json.loads] produces: JSON [null] is Python's [None]. *)
#[local] Set Warnings "-register-all".
Inductive pyvalue : Type :=
| PyNone
| PyBool (v : bool)
| PyInt (v : Z)
| PyFloat (repr : string)
| PyStr (v : string)
| PyList (vs : list pyvalue)
| PyDict (kvs : list (string * pyvalue)).

(** A Metadata Record: one decoded JSON object, tag name to value. *)
Abbreviation record := (gmap string pyvalue).

(** The exceptions the module can raise.  [OSError] is the error of a
    launch that fails; [BrokenPipeError], one of its subclasses, is
    written apart.  [NoSuchObject] belongs to the model only: it marks
    the use of a reference outside the heap, which no Python value
    denotes. *)
Inductive exn : Type :=
| ValueError (msg : string)
| UnicodeEncodeError
| MalformedResponse
| OSError
| BrokenPipeError
| AttributeError (attr : string)
| KeyError (key : string)
| RuntimeError (msg : string)
| StopIteration
| NoSuchObject.

(** Python's class hierarchy: [UnicodeEncodeError] derives from
    [UnicodeError], which derives from [ValueError]; so do the errors of
    [bytes.decode] and [json.loads]. *)
Definition is_ValueError (e : exn) : bool :=
  match e with
  | ValueError _ | UnicodeEncodeError | MalformedResponse => true
  | _ => false
  end.

(** How a call ends: it returns a value, it raises, or it never
    returns (the read loop of [execute] waits for a sentinel that does
    not come). *)
Inductive outcome (A : Type) : Type :=
| Returns (a : A)
| Raises (e : exn)
| Hangs.
Arguments Returns {A} a.
Arguments Raises {A} e.
Arguments Hangs {A}.

(** A parameter of [execute_json]: raw bytes or a text string. *)
Inductive param : Type :=
| PBytes (raw : bytes)
| PStr (text : string).

#[global] Instance param_eq_decision : EqDecision param.
Proof. solve_decision. Defined.

(** ** The subprocess and the session object

    What the subprocess answers, and whether it has exited on its own
    (it crashed, was killed, or was told to exit by what it was sent),
    are parameters of the model.  The input pipe is buffered, as in
    Python 3: [write] fills the buffer, which a request is taken to
    fit, and [flush] passes it on; once the subprocess has exited the
    flush raises [BrokenPipeError] and the buffer stays as it is.  [communicate] ignores that error; the
    subprocess is taken to exit when its input is closed, so
    [communicate] returns.  The finalizer [__del__], which calls
    [terminate] when an instance is collected, runs at no definite time
    and is left out. *)

(** A [subprocess.Popen] handle with its two pipes.  [stdin_buffer]
    holds what was written and not yet flushed; [stdout_pending] lists
    what the successive calls of [os.read] on the output pipe will
    return, oldest first. *)
Record Popen : Type := mkPopen {
  pid : nat;
  stdin_buffer : bytes;
  stdout_pending : list bytes
}.

(** An [ExifTool] instance.  [_process] is [None] while the attribute
    does not exist (before [start] and after [del self._process]). *)
Record ExifTool : Type := mkExifTool {
  executable : string;
  running : bool;
  _process : option Popen
}.

(** What the program does to the outside. *)
Inductive event : Type :=
| Spawned (p : nat) (argv : list string)
| Sent (p : nat) (data : bytes)
| Waited (p : nat)
| Warned (msg : string).

(** The store: the [ExifTool] objects by reference (aliases are equal
    references), the log of outside effects and the next process id. *)
Record World : Type := mkWorld {
  heap : list ExifTool;
  trace : list event;
  next_pid : nat
}.

(** The surroundings of the program. *)
Record Env : Type := mkEnv {
  (** [str.encode(encoding, errors)] with the filesystem encoding;
      [None] when it raises. *)
  fs_encode : string -> option bytes;
  (** [json.loads(raw.decode("utf-8"))], for the output of
      [exiftool -j] a list of objects; [None] when either raises. *)
  json_loads : bytes -> option (list record);
  (** [os.path.isfile] *)
  isfile : param -> bool;
  (** the reads by which a subprocess answers what one flush sends
      it, the same for every subprocess and every time *)
  tool : bytes -> list bytes;
  (** whether [subprocess.Popen] can launch this executable *)
  popen_ok : string -> bool;
  (** whether the subprocess with this id has exited on its own once
      the outside effects listed have happened *)
  exits : nat -> list event -> bool
}.

(** Computations over the store. *)
Definition M (A : Type) : Type := World -> outcome A * World.

Definition ret {A} (a : A) : M A := fun w => (Returns a, w).
Definition raise {A} (e : exn) : M A := fun w => (Raises e, w).
Definition bind {A B} (m : M A) (k : A -> M B) : M B :=
  fun w =>
    match m w with
    | (Returns a, w') => k a w'
    | (Raises e, w') => (Raises e, w')
    | (Hangs, w') => (Hangs, w')
    end.

Declare Scope py_scope.
Delimit Scope py_scope with py.
Notation "'let!' x ':=' m 'in' k" := (bind m (fun x => k))
  (at level 10, x binder, k at level 200) : py_scope.
Notation "'do!' m 'in' k" := (bind m (fun _ => k))
  (at level 10, k at level 200) : py_scope.
Open Scope py_scope.

(** Reads the object behind a reference. *)
Definition deref (self : nat) : M ExifTool :=
  fun w =>
    match heap w !! self with
    | Some et => (Returns et, w)
    | None => (Raises NoSuchObject, w)
    end.

(** The store after the object behind [self] has become [et]. *)
Definition store (self : nat) (et : ExifTool) (w : World) : World :=
  mkWorld (<[self := et]> (heap w)) (trace w) (next_pid w).

(** The store after a new object [et] has been made; its reference is
    the old size of the heap. *)
Definition alloc (et : ExifTool) (w : World) : World :=
  mkWorld (heap w ++ [et]) (trace w) (next_pid w).

(** The store after one more outside effect. *)
Definition log (ev : event) (w : World) : World :=
  mkWorld (heap w) (trace w ++ [ev]) (next_pid w).

(** Assigns the attributes of the object behind a reference. *)
Definition assign (self : nat) (et : ExifTool) : M unit :=
  fun w => (Returns tt, store self et w).

(** The store after a subprocess has been launched with [argv]. *)
Definition spawn (argv : list string) (w : World) : World :=
  mkWorld (heap w) (trace w ++ [Spawned (next_pid w) argv]) (S (next_pid w)).

Definition emit (ev : event) : M unit :=
  fun w => (Returns tt, log ev w).

(** ** class ExifTool *)

Section Program.
Context (E : Env).

Definition set_running (self : nat) (v : bool) : M unit :=
  let! et := deref self in
  assign self (mkExifTool (executable et) v (_process et)).

Definition set_process (self : nat) (v : option Popen) : M unit :=
  let! et := deref self in
  assign self (mkExifTool (executable et) (running et) v).

(** [self._process]: the attribute must exist. *)
Definition get_process (self : nat) : M Popen :=
  let! et := deref self in
  match _process et with
  | Some p => ret p
  | None => raise (AttributeError "_process")
  end.

(** [subprocess.Popen(argv, stdin=PIPE, stdout=PIPE, stderr=devnull)] *)
Definition popen (argv : list string) : M Popen :=
  fun w =>
    if popen_ok E (hd "" argv) then
      (Returns (mkPopen (next_pid w) [] []), spawn argv w)
    else (Raises OSError, w).

(** [self._process.stdin.write(data)] *)
Definition stdin_write (self : nat) (data : bytes) : M unit :=
  let! p := get_process self in
  set_process self (Some (mkPopen (pid p) (stdin_buffer p ++ data) (stdout_pending p))).

(** Whether the subprocess [p] has exited on its own by now. *)
Definition has_exited (p : nat) : M bool :=
  fun w => (Returns (exits E p (trace w)), w).

(** [self._process.stdin.flush()]: the subprocess receives the buffer
    and its answer becomes readable; when the subprocess has exited,
    the pipe is broken and the buffer is kept. *)
Definition stdin_flush (self : nat) : M unit :=
  let! p := get_process self in
  let! gone := has_exited (pid p) in
  if gone then raise BrokenPipeError
  else
    do! emit (Sent (pid p) (stdin_buffer p)) in
    set_process self
      (Some (mkPopen (pid p) [] (stdout_pending p ++ tool E (stdin_buffer p)))).

(** [self._process.communicate()]: closes the input, waits for the
    subprocess to exit and drains its output. *)
Definition communicate (self : nat) : M unit :=
  let! p := get_process self in
  do! emit (Waited (pid p)) in
  set_process self (Some (mkPopen (pid p) (stdin_buffer p) [])).

(** [__init__]; the result is the reference of the new object. *)
Definition ExifTool_init (executable_ : option string) : M nat :=
  fun w =>
    (Returns (length (heap w)),
     alloc (mkExifTool (default executable_default executable_) false None) w).

(** The command line of [start]. *)
Definition argv_of (executable : string) : list string :=
  [executable; "-stay_open"; "True"; "-@"; "-"; "-common_args"; "-G"; "-n"].

(** The directive that [terminate] writes. *)
Definition stay_open_false : bytes :=
  lit "-stay_open" ++ nl ++ lit "False" ++ nl.

Definition already_running : string := "ExifTool already running; doing nothing.".
Definition not_running : string := "ExifTool instance not running.".

Definition start (self : nat) : M unit :=
  let! et := deref self in
  if running et then
    emit (Warned already_running)
  else
    let! p := popen (argv_of (executable et)) in
    do! set_process self (Some p) in
    set_running self true.

Definition terminate (self : nat) : M unit :=
  let! et := deref self in
  if negb (running et) then ret tt
  else
    do! stdin_write self stay_open_false in
    do! stdin_flush self in
    do! communicate self in
    do! set_process self None in
    set_running self false.

Definition __enter__ (self : nat) : M nat :=
  do! start self in ret self.

Definition __exit__ (self : nat) : M unit := terminate self.

(** [with self as et: body]: [__exit__] runs on every way out of the
    body, and returns [None], so an exception of the body goes on. *)
Definition with_ {A} (self : nat) (body : nat -> M A) : M A :=
  let! et := __enter__ self in
  fun w =>
    match body et w with
    | (Hangs, w') => (Hangs, w')
    | (r, w') =>
        match __exit__ self w' with
        | (Returns _, w'') => (r, w'')
        | (Raises e, w'') => (Raises e, w'')
        | (Hangs, w'') => (Hangs, w'')
        end
    end.

(** The loop [while not output[-32:].strip().endswith(sentinel):
    output += os.read(fd, block_size)].  [reads] are the results of the
    coming calls of [os.read], each of at most [block_size] bytes; the
    loop itself does not depend on their lengths.  When none is left
    the read never returns.  The result is the final [output] and the
    reads left. *)
Fixpoint read_until_sentinel (reads : list bytes) (output : bytes)
  : option (bytes * list bytes) :=
  if endswith (strip (last_bytes 32 output)) sentinel then Some (output, reads)
  else
    match reads with
    | [] => None
    | chunk :: rest => read_until_sentinel rest (output ++ chunk)
    end.

Definition read_output (self : nat) : M bytes :=
  let! p := get_process self in
  match read_until_sentinel (stdout_pending p) [] with
  | Some (output, rest) =>
      do! set_process self (Some (mkPopen (pid p) (stdin_buffer p) rest)) in
      ret output
  | None =>
      do! set_process self (Some (mkPopen (pid p) (stdin_buffer p) [])) in
      fun w => (Hangs, w)
  end.

(** [b"\n".join(params + (b"-execute\n",))] *)
Definition request (params : list bytes) : bytes :=
  join nl (params ++ [lit "-execute" ++ nl]).

Definition execute (self : nat) (params : list bytes) : M bytes :=
  let! et := deref self in
  if negb (running et) then raise (ValueError not_running)
  else
    do! stdin_write self (request params) in
    do! stdin_flush self in
    let! output := read_output self in
    ret (drop_last (length sentinel) (strip output)).

Definition fsencode (filename : param) : option bytes :=
  match filename with
  | PBytes raw => Some raw
  | PStr text => fs_encode E text
  end.

Definition execute_json (self : nat) (params : list param) : M (list record) :=
  match mapM fsencode params with
  | None => raise UnicodeEncodeError
  | Some params' =>
      let! raw := execute self (lit "-j" :: params') in
      match json_loads E raw with
      | Some records => ret records
      | None => raise MalformedResponse
      end
  end.

(** ** The metadata views *)

(** [class FileMetadata(dict)]: [items] is the content of the [dict]
    it derives from; [_edits] and [_values] are instance attributes,
    [None] while the attribute does not exist. *)
Record FileMetadata : Type := mkFileMetadata {
  items : record;
  _edits : option (list (string * pyvalue));
  _values : option record
}.

Record MultiFileMetadata : Type := mkMultiFileMetadata {
  file_paths : list param;
  exif_tool : nat
}.

(** What [metadata] returns. *)
Inductive view : Type :=
| Single (v : FileMetadata)
| Multi (v : MultiFileMetadata).

(** A [raise] without an expression raises again the exception being
    handled where the call is made, and in Python 3 a [RuntimeError]
    when there is none. *)
Definition reraise (handled : option exn) : exn :=
  default (RuntimeError "No active exception to reraise") handled.

(** Methods of a [FileMetadata] act on that object alone. *)
Definition FM (A : Type) : Type := FileMetadata -> outcome A * FileMetadata.

(** [FileMetadata.__init__(values, exif_tool)] *)
Definition FileMetadata_init (values : record) (exif_tool : nat) : FileMetadata :=
  mkFileMetadata values (Some []) None.

(** [FileMetadata.__getitem__]: [return self._values[key]] *)
Definition FileMetadata_getitem (key : string) : FM pyvalue :=
  fun self =>
    match _values self with
    | None => (Raises (AttributeError "_values"), self)
    | Some values =>
        match values !! key with
        | Some v => (Returns v, self)
        | None => (Raises (KeyError key), self)
        end
    end.

Definition FileMetadata_setitem (handled : option exn) (key : string)
    (value : pyvalue) : FM unit :=
  fun self =>
    (Raises (reraise handled),
     mkFileMetadata (<[key := value]> (items self)) (_edits self) (_values self)).

Definition FileMetadata_delitem (handled : option exn) (key : string) : FM unit :=
  fun self =>
    match items self !! key with
    | None => (Raises (KeyError key), self)
    | Some _ =>
        (Raises (reraise handled),
         mkFileMetadata (delete key (items self)) (_edits self) (_values self))
    end.

Definition FileMetadata_write (handled : option exn) : FM unit :=
  fun self => (Raises (reraise handled), self).

(** [MultiFileMetadata._execute] *)
Definition MultiFileMetadata_execute (self : MultiFileMetadata)
    (params : list param) : M (list record) :=
  let! et := deref (exif_tool self) in
  if running et then execute_json (exif_tool self) params
  else with_ (exif_tool self) (fun et => execute_json et params).

(** [MultiFileMetadata.__iter__] is a generator: making it does
    nothing, and the whole query runs when its first element is asked
    for.  The result lists what it yields. *)
Definition MultiFileMetadata_iter (self : MultiFileMetadata) : M (list FileMetadata) :=
  let! records := MultiFileMetadata_execute self (PStr "-r" :: file_paths self) in
  ret (map (fun exif_values => FileMetadata_init exif_values (exif_tool self)) records).

(** [exif_values.get(key, None)] *)
Definition dict_get (exif_values : record) (key : string) : pyvalue :=
  default PyNone (exif_values !! key).

(** [MultiFileMetadata.__getitem__], a generator as well. *)
Definition MultiFileMetadata_getitem (self : MultiFileMetadata) (key : string)
  : M (list pyvalue) :=
  let! records :=
    MultiFileMetadata_execute self
      (PStr (String.append "-" key) :: PStr "-r" :: file_paths self) in
  ret (map (fun exif_values => dict_get exif_values key) records).

Definition MultiFileMetadata_setitem (handled : option exn)
    (self : MultiFileMetadata) (key : string) (value : pyvalue) : M unit :=
  raise (reraise handled).

Definition MultiFileMetadata_delitem (handled : option exn)
    (self : MultiFileMetadata) (key : string) : M unit :=
  raise (reraise handled).

Definition MultiFileMetadata_write (handled : option exn)
    (self : MultiFileMetadata) : M unit :=
  raise (reraise handled).

(** [ExifTool.metadata] *)
Definition ExifTool_metadata (self : nat) (file_paths : list param) : M view :=
  match file_paths with
  | [file_path] =>
      if isfile E file_path then
        let! records := execute_json self [file_path] in
        match records with
        | exif_values :: _ => ret (Single (FileMetadata_init exif_values self))
        | [] => raise StopIteration
        end
      else ret (Multi (mkMultiFileMetadata file_paths self))
  | _ => ret (Multi (mkMultiFileMetadata file_paths self))
  end.

(** ** Module-level functions *)

Definition batch (executable : option string) : M nat :=
  ExifTool_init executable.

Definition metadata (file_paths : list param) : M view :=
  let! et := ExifTool_init None in
  with_ et (fun et => ExifTool_metadata et file_paths).

End Program.

(** ** The exchange of a JSON query, seen from the pipes *)

(** What [execute_json] sends on the process [p] for [params]. *)
Definition json_request (E : Env) (p : Popen) (params : list param) : option bytes :=
  encoded ← mapM (fsencode E) params;
  Some (stdin_buffer p ++ request (lit "-j" :: encoded)).

(** The records that the subprocess behind [p] answers to the JSON
    query [params], with the reads that stay in the pipe; [None] when
    a parameter cannot be encoded, the sentinel does not come or the
    payload does not decode. *)
Definition answer (E : Env) (p : Popen) (params : list param)
  : option (list record * list bytes) :=
  data ← json_request E p params;
  '(output, rest) ← read_until_sentinel (stdout_pending p ++ tool E data) [];
  records ← json_loads E (drop_last (length sentinel) (strip output));
  Some (records, rest).

(** The subprocess [p] does not exit on its own after the store [w],
    whatever effects follow.  (Whether it has exited is asked only
    when the program flushes the pipe of [p], which it does not do
    once it has waited for [p].) *)
Definition stays_alive (E : Env) (p : nat) (w : World) : Prop :=
  forall t, exits E p (trace w ++ t) = false.

(** Whether [reads] bring [payload], whitespace [space], the sentinel
    and at most 25 bytes of whitespace [trail], with no sentinel inside
    [payload]. *)
Definition framed (reads : list bytes) (payload space trail : bytes) : bool :=
  bool_decide (concat reads = payload ++ space ++ sentinel ++ trail)
  && is_blank space && is_blank trail
  && bool_decide (length trail <= 25)
  && negb (occurs sentinel payload).

(** The subprocess behind [p] replies to the JSON query [params] with
    [records]: the parameters can be encoded, and what the pipe then
    brings is well framed, with a payload that [json.loads] decodes to
    [records] once the whitespace at its start is removed.  This speaks
    of the bytes the subprocess writes and of the decoder, not of what
    the program makes of them. *)
Definition replies (E : Env) (p : Popen) (params : list param)
    (records : list record) : Prop :=
  exists data payload space trail,
    json_request E p params = Some data
    /\ framed (stdout_pending p ++ tool E data) payload space trail = true
    /\ json_loads E (lstrip (payload ++ space)) = Some records.


(** The process that serves a query of a view bound to the session
    [et]: the one the running session holds, or the one a stopped
    session launches for the call. *)
Definition serving_process (w : World) (et : ExifTool) : Popen :=
  match _process et with
  | Some p => p
  | None => mkPopen (next_pid w) [] []
  end.


(** ** The invariant of a session *)

(** A session runs exactly when it holds a process handle, and that
    process was launched earlier. *)
Definition session_ok (w : World) (et : ExifTool) : bool :=
  match _process et with
  | Some p => running et && bool_decide (pid p < next_pid w)
  | None => negb (running et)
  end.

(** Every session of the store satisfies the invariant. *)
Definition world_ok (w : World) : Prop :=
  Forall (fun et => session_ok w et = true) (heap w).

(** A computation keeps the invariant, however it ends. *)
Definition preserves {A} (m : M A) : Prop :=
  forall w r w', world_ok w -> m w = (r, w') -> world_ok w'.

(** ** Sample surroundings and stores *)

(** Surroundings in which the subprocess answers every request with
    [reads], every payload decodes to [records], text is encoded byte
    for byte, ["a.jpg"] is the one regular file, and no subprocess
    exits on its own. *)
Definition sample_env (reads : list bytes) (records : list record) : Env :=
  mkEnv (fun s => Some (lit s))
        (fun _ => Some records)
        (fun f => bool_decide (f = PStr "a.jpg"))
        (fun _ => reads)
        (fun _ => true)
        (fun _ _ => false).

(** Surroundings whose filesystem encoding is ASCII. *)
Definition ascii_env : Env :=
  mkEnv (fun s => if forallb (fun c => bool_decide (Ascii.nat_of_ascii c < 128)%nat)
                       (String.list_ascii_of_string s)
                  then Some (lit s) else None)
        (fun _ => Some [])
        (fun _ => false)
        (fun _ => [])
        (fun _ => true)
        (fun _ _ => false).

(** Surroundings in which every subprocess has exited on its own
    before anything is flushed to it. *)
Definition gone_env : Env :=
  mkEnv (fun s => Some (lit s))
        (fun _ => Some [])
        (fun _ => false)
        (fun _ => [])
        (fun _ => true)
        (fun _ _ => true).

(** Surroundings in which the subprocess answers every request with
    the sentinel alone, and exits once it has been sent a [-stay_open]
    line. *)
Definition quitting_env : Env :=
  mkEnv (fun s => Some (lit s))
        (fun _ => Some [])
        (fun _ => false)
        (fun _ => [sentinel ++ nl])
        (fun _ => true)
        (fun p t =>
           existsb (fun ev =>
                      match ev with
                      | Sent q data =>
                          bool_decide (q = p) && occurs (lit "-stay_open") data
                      | _ => false
                      end) t).

Definition idle_session : ExifTool := mkExifTool "exiftool" false None.
Definition busy_session : ExifTool :=
  mkExifTool "exiftool" true (Some (mkPopen 0 [] [])).

Definition empty_world : World := mkWorld [] [] 0.
Definition idle_world : World := mkWorld [idle_session] [] 0.
Definition busy_world : World :=
  mkWorld [busy_session] [Spawned 0 (argv_of "exiftool")] 1.

Definition source_a : record :=
  {[ "SourceFile" := PyStr "a.jpg"; "EXIF:Model" := PyStr "M" ]}.
Definition source_b : record :=
  {[ "SourceFile" := PyStr "b.png"; "EXIF:Artist" := PyStr "B" ]}.

(** A subprocess that answers every request with a two-line payload,
    the sentinel and a newline, in two reads. *)
Definition sample_reads : list bytes :=
  [lit "[{},"; nl ++ lit "{}]" ++ nl ++ sentinel ++ nl].

(** Surroundings with two files.  The subprocess answers a request
    that names the tag [EXIF:Artist] with that tag only, another query
    with all tags, and the closing directive with nothing. *)
Definition photo_env : Env :=
  mkEnv (fun s => Some (lit s))
        (fun raw =>
           if bool_decide (raw = lit "full" ++ nl) then Some [source_a; source_b]
           else if bool_decide (raw = lit "artist" ++ nl)
           then Some [ {[ "SourceFile" := PyStr "a.jpg" ]};
                       {[ "SourceFile" := PyStr "b.png"; "EXIF:Artist" := PyStr "B" ]} ]
           else None)
        (fun f => bool_decide (f = PStr "a.jpg"))
        (fun data =>
           if occurs (lit "-EXIF:Artist") data then [lit "artist" ++ nl ++ sentinel ++ nl]
           else if occurs (lit "-stay_open") data then []
           else [lit "full" ++ nl; sentinel ++ nl])
        (fun _ => true)
        (fun _ _ => false).

(** The same surroundings, except that the subprocess answers a
    request that names the tag [EXIF:Artist] with the one file that has
    the tag. *)
Definition sparse_env : Env :=
  mkEnv (fs_encode photo_env)
        (fun raw =>
           if bool_decide (raw = lit "artist" ++ nl)
           then Some [ {[ "SourceFile" := PyStr "b.png"; "EXIF:Artist" := PyStr "B" ]} ]
           else json_loads photo_env raw)
        (isfile photo_env) (tool photo_env) (popen_ok photo_env) (exits photo_env).

Definition sample_view : MultiFileMetadata :=
  mkMultiFileMetadata [PStr "a.jpg"; PStr "b.png"] 0.

(** ** Further notions *)

(** [data.split(sep)] for a separator [sep] of one byte. *)
Fixpoint split (sep : byte) (data : bytes) : list bytes :=
  match data with
  | [] => [[]]
  | c :: rest =>
      if bool_decide (c = sep) then [] :: split sep rest
      else
        match split sep rest with
        | first :: others => (c :: first) :: others
        | [] => [[c]]
        end
  end.

(** The test of the read loop of [execute]:
    [output[-32:].strip().endswith(sentinel)]. *)
Definition loop_test (output : bytes) : bool :=
  endswith (strip (last_bytes 32 output)) sentinel.

(** A pipe pair between two calls: nothing waits to be flushed, and
    what waits to be read is whitespace. *)
Definition pipe_clean (p : Popen) : bool :=
  bool_decide (stdin_buffer p = []) && is_blank (concat (stdout_pending p)).

(** One session used for many queries, the use the module is made
    for: [et.execute] called with each batch of parameters in turn,
    the results collected in a list. *)
Fixpoint execute_each (E : Env) (self : nat) (batches : list (list bytes))
  : M (list bytes) :=
  match batches with
  | [] => ret []
  | params :: others =>
      let! result := execute E self params in
      let! results := execute_each E self others in
      ret (result :: results)
  end.

(** A computation changes, of the objects that exist, none but
    [self], and removes none. *)
Definition confined {A} (self : nat) (m : M A) : Prop :=
  forall w r w',
    m w = (r, w') ->
    (forall other et, other <> self -> heap w !! other = Some et ->
                      heap w' !! other = Some et)
    /\ (is_Some (heap w !! self) -> is_Some (heap w' !! self)).

(** The handle a session holds: the id of its process. *)
Definition handle_of (et : ExifTool) : option nat := pid <$> _process et.

(** The stay-open protocol, read off a trace.  The state is the set of
    the processes alive (launched and not yet waited for) and the set of
    those waited for; a step is [None] when the event breaks the
    protocol: a process id launched a second time, or something sent to
    or waited for a process that is not alive. *)
Definition protocol_step (state : option (gset nat * gset nat)) (ev : event)
  : option (gset nat * gset nat) :=
  match state with
  | None => None
  | Some (alive, dead) =>
      match ev with
      | Spawned p _ =>
          if bool_decide (p ∈ alive ∪ dead) then None else Some ({[p]} ∪ alive, dead)
      | Sent p _ => if bool_decide (p ∈ alive) then Some (alive, dead) else None
      | Waited p =>
          if bool_decide (p ∈ alive) then Some (alive ∖ {[p]}, {[p]} ∪ dead) else None
      | Warned _ => Some (alive, dead)
      end
  end.

Definition protocol_state (t : list event) : option (gset nat * gset nat) :=
  foldl protocol_step (Some (∅, ∅)) t.

(** Some session of the store holds the process [p]. *)
Definition held (w : World) (p : nat) : Prop :=
  exists i et, heap w !! i = Some et /\ handle_of et = Some p.

(** The store follows the protocol: the sessions are in their
    invariant state, no two of them hold the same process, the trace
    obeys the protocol, the processes alive are exactly those held by a
    session, and every process id used is below the next one. *)
Definition protocol_ok (w : World) : Prop :=
  world_ok w
  /\ (forall i j eti etj p,
        heap w !! i = Some eti -> heap w !! j = Some etj ->
        handle_of eti = Some p -> handle_of etj = Some p -> i = j)
  /\ exists alive dead,
       protocol_state (trace w) = Some (alive, dead)
       /\ (forall p, p ∈ alive <-> held w p)
       /\ (forall p, p ∈ dead -> p < next_pid w).

(** A computation keeps a property of the store, however it ends. *)
Definition keeps {A} (I : World -> Prop) (m : M A) : Prop :=
  forall w r w', I w -> m w = (r, w') -> I w'.

(** * Properties *)

(** ** The store *)

Lemma heap_store self et et0 w :
  heap w !! self = Some et0 -> heap (store self et w) !! self = Some et.
Proof.
  intros H. apply lookup_lt_Some in H. simpl.
  by apply list_lookup_insert_eq.
Qed.

Lemma heap_store_ne self other et w :
  self <> other -> heap (store self et w) !! other = heap w !! other.
Proof. intros H. simpl. by apply list_lookup_insert_ne. Qed.

Lemma store_store self et1 et2 w :
  store self et1 (store self et2 w) = store self et1 w.
Proof. unfold store. simpl. by rewrite list_insert_insert_eq. Qed.

Lemma log_store self et ev w :
  log ev (store self et w) = store self et (log ev w).
Proof. reflexivity. Qed.

Lemma spawn_store self et argv w :
  spawn argv (store self et w) = store self et (spawn argv w).
Proof. reflexivity. Qed.

Lemma heap_alloc et w : heap (alloc et w) !! length (heap w) = Some et.
Proof. simpl. by apply list_lookup_middle. Qed.

(** A subprocess that stays alive has not exited now, and stays alive
    after further effects. *)
Lemma stays_alive_now E p w : stays_alive E p w -> exits E p (trace w) = false.
Proof. intros H. rewrite <- (app_nil_r (trace w)). apply H. Qed.

Lemma stays_alive_store E p self et w :
  stays_alive E p w -> stays_alive E p (store self et w).
Proof. done. Qed.

Lemma stays_alive_alloc E p et w : stays_alive E p w -> stays_alive E p (alloc et w).
Proof. done. Qed.

Lemma stays_alive_log E p ev w : stays_alive E p w -> stays_alive E p (log ev w).
Proof. intros H t. simpl. rewrite <- app_assoc. apply H. Qed.

Lemma stays_alive_spawn E p argv w : stays_alive E p w -> stays_alive E p (spawn argv w).
Proof. intros H t. simpl. rewrite <- app_assoc. apply H. Qed.

(** Finds that a subprocess is alive after a series of stores and
    outside effects. *)
Ltac alive_tac :=
  cbn [pid];
  solve [ eassumption
        | apply stays_alive_now; alive_tac
        | apply stays_alive_store; alive_tac
        | apply stays_alive_alloc; alive_tac
        | apply stays_alive_log; alive_tac
        | apply stays_alive_spawn; alive_tac ].

(** Finds the object behind a reference after a series of stores and
    outside effects. *)
Ltac heap_tac :=
  solve [ eassumption
        | eapply heap_store; heap_tac
        | unfold log, spawn; simpl; eassumption
        | unfold log, spawn, alloc; simpl; by apply list_lookup_middle ].

Lemma bind_returns {A B} (m : M A) (k : A -> M B) w a w' :
  m w = (Returns a, w') -> bind m k w = k a w'.
Proof. unfold bind. by intros ->. Qed.

Lemma bind_raises {A B} (m : M A) (k : A -> M B) w e w' :
  m w = (Raises e, w') -> bind m k w = (Raises e, w').
Proof. unfold bind. by intros ->. Qed.

Lemma bind_hangs {A B} (m : M A) (k : A -> M B) w w' :
  m w = (Hangs, w') -> bind m k w = (Hangs, w').
Proof. unfold bind. by intros ->. Qed.

Lemma deref_some self et w :
  heap w !! self = Some et -> deref self w = (Returns et, w).
Proof. unfold deref. by intros ->. Qed.

(** Brings a store to the form [store self et (log .. w)]. *)
Ltac norm_store :=
  cbn [executable running _process pid stdin_buffer stdout_pending];
  rewrite ?log_store, ?spawn_store, ?store_store.

(** ** The attribute and pipe primitives *)

Section Primitives.
Context (E : Env).

Lemma set_running_spec self et v w :
  heap w !! self = Some et ->
  set_running self v w
  = (Returns tt, store self (mkExifTool (executable et) v (_process et)) w).
Proof. intros H. unfold set_running. by rewrite (bind_returns _ _ _ _ _ (deref_some _ _ _ H)). Qed.

Lemma set_process_spec self et v w :
  heap w !! self = Some et ->
  set_process self v w
  = (Returns tt, store self (mkExifTool (executable et) (running et) v) w).
Proof. intros H. unfold set_process. by rewrite (bind_returns _ _ _ _ _ (deref_some _ _ _ H)). Qed.

Lemma get_process_spec self et p w :
  heap w !! self = Some et -> _process et = Some p ->
  get_process self w = (Returns p, w).
Proof.
  intros H Hp. unfold get_process.
  rewrite (bind_returns _ _ _ _ _ (deref_some _ _ _ H)). by rewrite Hp.
Qed.

Lemma stdin_write_spec self et p data w :
  heap w !! self = Some et -> _process et = Some p ->
  stdin_write self data w
  = (Returns tt,
     store self (mkExifTool (executable et) (running et)
                   (Some (mkPopen (pid p) (stdin_buffer p ++ data) (stdout_pending p)))) w).
Proof.
  intros H Hp. unfold stdin_write.
  rewrite (bind_returns _ _ _ _ _ (get_process_spec _ _ _ _ H Hp)).
  by apply set_process_spec.
Qed.

Lemma stdin_flush_spec self et p w :
  heap w !! self = Some et -> _process et = Some p ->
  exits E (pid p) (trace w) = false ->
  stdin_flush E self w
  = (Returns tt,
     store self (mkExifTool (executable et) (running et)
                   (Some (mkPopen (pid p) []
                            (stdout_pending p ++ tool E (stdin_buffer p)))))
       (log (Sent (pid p) (stdin_buffer p)) w)).
Proof.
  intros H Hp Hlive. unfold stdin_flush.
  rewrite (bind_returns _ _ _ _ _ (get_process_spec _ _ _ _ H Hp)).
  unfold bind at 1, has_exited. rewrite Hlive.
  unfold bind at 1, emit.
  by rewrite (set_process_spec _ et) by heap_tac.
Qed.

Lemma stdin_flush_broken self et p w :
  heap w !! self = Some et -> _process et = Some p ->
  exits E (pid p) (trace w) = true ->
  stdin_flush E self w = (Raises BrokenPipeError, w).
Proof.
  intros H Hp Hgone. unfold stdin_flush.
  rewrite (bind_returns _ _ _ _ _ (get_process_spec _ _ _ _ H Hp)).
  unfold bind at 1, has_exited. by rewrite Hgone.
Qed.

Lemma communicate_spec self et p w :
  heap w !! self = Some et -> _process et = Some p ->
  communicate self w
  = (Returns tt,
     store self (mkExifTool (executable et) (running et)
                   (Some (mkPopen (pid p) (stdin_buffer p) [])))
       (log (Waited (pid p)) w)).
Proof.
  intros H Hp. unfold communicate.
  rewrite (bind_returns _ _ _ _ _ (get_process_spec _ _ _ _ H Hp)).
  unfold bind at 1, emit.
  by rewrite (set_process_spec _ et) by heap_tac.
Qed.

End Primitives.

(** ** Stripping and the sentinel *)

Lemma is_blank_Forall l : is_blank l = true <-> Forall (fun c => is_space c = true) l.
Proof.
  unfold is_blank. induction l as [|c l IH]; simpl.
  - split; [constructor | done].
  - rewrite andb_true_iff, IH. split.
    + intros [? ?]. by constructor.
    + by inversion 1.
Qed.

Lemma is_blank_app l k : is_blank (l ++ k) = is_blank l && is_blank k.
Proof. unfold is_blank. induction l as [|c l IH]; simpl; [done|]. by rewrite IH, andb_assoc. Qed.

Lemma is_blank_rev l : is_blank l = true -> is_blank (rev l) = true.
Proof.
  induction l as [|c l IH]; simpl; [done|].
  intros [Hc Hl]%andb_true_iff. rewrite is_blank_app, IH by done.
  simpl. by rewrite Hc.
Qed.

Lemma is_blank_elem l c : is_blank l = true -> c ∈ l -> is_space c = true.
Proof. rewrite is_blank_Forall, Forall_forall. auto. Qed.

Lemma lstrip_blank l : is_blank l = true -> lstrip l = [].
Proof.
  induction l as [|c l IH]; simpl; [done|].
  intros [-> Hl]%andb_true_iff. auto.
Qed.

Lemma lstrip_app_solid l c t :
  is_space c = false -> lstrip (l ++ c :: t) = lstrip l ++ c :: t.
Proof.
  intros Hc. induction l as [|x l IH]; simpl.
  - by rewrite Hc.
  - by destruct (is_space x).
Qed.

Lemma rstrip_app_blank l c k :
  is_space c = false -> is_blank k = true -> rstrip (l ++ c :: k) = l ++ [c].
Proof.
  intros Hc Hk. unfold rstrip.
  rewrite rev_app_distr. simpl. rewrite <- app_assoc. simpl.
  rewrite lstrip_app_solid by done.
  rewrite lstrip_blank by (by apply is_blank_rev).
  simpl. by rewrite rev_involutive.
Qed.

(** Every byte string is whitespace, then its stripped part, then
    whitespace. *)
Lemma lstrip_split l : exists k, l = k ++ lstrip l /\ is_blank k = true.
Proof.
  induction l as [|c l (k & Hk & Hb)]; simpl.
  - by exists [].
  - destruct (is_space c) eqn:Hc.
    + exists (c :: k). simpl. rewrite Hc, Hb. split; [by f_equal|done].
    + by exists [].
Qed.

Lemma rstrip_split l : exists k, l = rstrip l ++ k /\ is_blank k = true.
Proof.
  destruct (lstrip_split (rev l)) as (k & Hk & Hb).
  exists (rev k). split; [|by apply is_blank_rev].
  unfold rstrip. rewrite <- rev_app_distr, <- Hk. by rewrite rev_involutive.
Qed.

Lemma strip_split l :
  exists k1 k2, l = k1 ++ strip l ++ k2 /\ is_blank k1 = true /\ is_blank k2 = true.
Proof.
  destruct (lstrip_split l) as (k1 & H1 & Hb1).
  destruct (rstrip_split (lstrip l)) as (k2 & H2 & Hb2).
  exists k1, k2. unfold strip. by rewrite <- H2.
Qed.

Lemma sentinel_cons : sentinel = brace :: sentinel_tail.
Proof. reflexivity. Qed.

Lemma sentinel_snoc : sentinel = lit "{ready" ++ ["}"%byte].
Proof. reflexivity. Qed.

Lemma brace_solid : is_space brace = false.
Proof. reflexivity. Qed.

Lemma sentinel_tail_no_brace : brace ∉ sentinel_tail.
Proof.
  intros H. vm_compute in H.
  repeat (apply elem_of_cons in H as [H|H]; [discriminate H|]).
  by apply elem_of_nil in H.
Qed.

Lemma sentinel_solid c : c ∈ sentinel -> is_space c = false.
Proof.
  revert c. apply Forall_forall. vm_compute. repeat constructor.
Qed.

(** Stripping a response that ends with the sentinel and whitespace
    keeps what precedes the sentinel, less its leading whitespace. *)
Lemma strip_framed l k :
  is_blank k = true -> strip (l ++ sentinel ++ k) = lstrip l ++ sentinel.
Proof.
  intros Hk. unfold strip.
  replace (l ++ sentinel ++ k) with (l ++ brace :: (sentinel_tail ++ k))
    by reflexivity.
  rewrite lstrip_app_solid by apply brace_solid.
  replace (lstrip l ++ brace :: sentinel_tail ++ k)
    with ((lstrip l ++ lit "{ready") ++ "}"%byte :: k)
    by (by rewrite <- app_assoc).
  rewrite rstrip_app_blank by done. by rewrite <- app_assoc.
Qed.

Lemma drop_last_app (l k : bytes) : drop_last (length k) (l ++ k) = l.
Proof.
  unfold drop_last. rewrite length_app.
  replace (length l + length k - length k) with (length l) by lia.
  apply take_app_length.
Qed.

Lemma endswith_app (l k : bytes) : endswith (l ++ k) k = true.
Proof.
  unfold endswith, last_bytes. apply bool_decide_eq_true. rewrite length_app.
  replace (length l + length k - length k) with (length l) by lia.
  apply drop_app_length.
Qed.

Lemma endswith_split (l k : bytes) :
  endswith l k = true -> exists pre, l = pre ++ k.
Proof.
  unfold endswith, last_bytes. intros H%bool_decide_eq_true.
  exists (take (length l - length k) l).
  rewrite <- (take_drop (length l - length k) l) at 1. by rewrite H.
Qed.

Lemma framed_result l k :
  is_blank k = true ->
  drop_last (length sentinel) (strip (l ++ sentinel ++ k)) = lstrip l.
Proof. intros Hk. rewrite strip_framed by done. apply drop_last_app. Qed.

(** The test of the read loop holds of an output that ends with the
    sentinel and at most 25 bytes of whitespace. *)
Lemma loop_test_framed l k :
  is_blank k = true -> length k <= 25 ->
  endswith (strip (last_bytes 32 (l ++ sentinel ++ k))) sentinel = true.
Proof.
  intros Hk Hlen. unfold last_bytes.
  rewrite drop_app_le.
  2:{ rewrite !length_app. change (length sentinel) with 7. lia. }
  rewrite strip_framed by done. apply endswith_app.
Qed.

(** When the test holds, the output ends with the sentinel and
    whitespace. *)
Lemma loop_test_split output :
  endswith (strip (last_bytes 32 output)) sentinel = true ->
  exists pre k, output = pre ++ sentinel ++ k /\ is_blank k = true.
Proof.
  intros [q Hq]%endswith_split.
  destruct (strip_split (last_bytes 32 output)) as (k1 & k2 & H & _ & Hb).
  exists (take (length output - 32) output ++ k1 ++ q), k2. split; [|done].
  rewrite <- (take_drop (length output - 32) output) at 1.
  fold (last_bytes 32 output). rewrite H, Hq. by rewrite <- !app_assoc.
Qed.

(** ** Where the sentinel can stand in a response *)

Lemma occurs_intro (sub pre post : bytes) : occurs sub (pre ++ sub ++ post) = true.
Proof.
  induction pre as [|c pre IH]; simpl.
  - destruct (sub ++ post) eqn:Heq; simpl.
    + apply app_eq_nil in Heq as [-> _]. by apply bool_decide_eq_true.
    + rewrite <- Heq, take_app_length. by rewrite bool_decide_true.
  - rewrite IH. apply orb_true_r.
Qed.

Lemma brace_in_sentinel_app pre post : brace ∈ pre ++ sentinel ++ post.
Proof.
  rewrite sentinel_cons. apply elem_of_app. right. by left.
Qed.

Lemma blank_no_sentinel pre post k :
  is_blank k = true -> k <> pre ++ sentinel ++ post.
Proof.
  intros Hk ->. pose proof (brace_in_sentinel_app pre post) as Hin.
  apply (is_blank_elem _ _ Hk) in Hin. by rewrite brace_solid in Hin.
Qed.

(** A block that begins with the sentinel's tail and has a brace later
    begins with the whole tail before that brace. *)
Lemma sentinel_tail_prefix x k y :
  sentinel_tail ++ x = k ++ brace :: y -> exists j, k = sentinel_tail ++ j.
Proof.
  intros [(j & Hj & Hj')|(j & Hj & _)]%app_eq_inv; [|by exists j].
  destruct j as [|c j].
  - exists []. by rewrite app_nil_r in *.
  - exfalso. apply sentinel_tail_no_brace.
    injection Hj' as <- _. rewrite Hj. apply elem_of_app. right. by left.
Qed.

Lemma sentinel_app_cons x c k y :
  sentinel ++ x = (c :: k) ++ y -> c = brace /\ sentinel_tail ++ x = k ++ y.
Proof.
  rewrite sentinel_cons. simpl. intros H. injection H as <- H'. split; [done|exact H'].
Qed.

(** In a response [payload ++ space ++ sentinel ++ trail] whose payload
    does not contain the sentinel, the sentinel stands at one place
    only. *)
Lemma sentinel_unique pre post payload space trail :
  is_blank space = true -> is_blank trail = true ->
  occurs sentinel payload = false ->
  pre ++ sentinel ++ post = payload ++ space ++ sentinel ++ trail ->
  pre = payload ++ space /\ post = trail.
Proof.
  intros Hs Ht Hocc Heq.
  assert (pre = payload ++ space) as ->.
  2:{ split; [done|]. rewrite <- !app_assoc in Heq.
      by do 3 apply app_inv_head in Heq. }
  rewrite (app_assoc payload) in Heq.
  apply app_eq_inv in Heq as [(k & Hk & Hk')|(k & Hk & Hk')].
  - (* the sentinel found starts at or after the true one *)
    destruct k as [|c k]; [by rewrite app_nil_r in Hk|]. exfalso.
    apply sentinel_app_cons in Hk' as [-> Hk'].
    pose proof (brace_in_sentinel_app k post) as Hin. rewrite <- Hk' in Hin.
    apply elem_of_app in Hin as [Hin|Hin].
    + by apply sentinel_tail_no_brace.
    + apply (is_blank_elem _ _ Ht) in Hin. by rewrite brace_solid in Hin.
  - (* the sentinel found starts before the true one *)
    destruct k as [|c k]; [by rewrite app_nil_r in Hk|]. exfalso.
    apply sentinel_app_cons in Hk' as [-> Hk'].
    rewrite sentinel_cons in Hk'.
    apply sentinel_tail_prefix in Hk' as [j ->].
    change (brace :: sentinel_tail ++ j) with (sentinel ++ j) in Hk.
    apply app_eq_inv in Hk as [(i & Hi & Hi')|(i & Hi & Hi')].
    + (* it starts in the payload *)
      apply app_eq_inv in Hi' as [(h & Hh & Hh')|(h & Hh & Hh')].
      * destruct h as [|c h].
        -- rewrite app_nil_r in Hh. subst i.
           pose proof (occurs_intro sentinel pre []) as Hin.
           rewrite app_nil_r, <- Hi in Hin. congruence.
        -- assert (is_space c = true) as Hc1.
           { apply (is_blank_elem space); [done|]. rewrite Hh'. by left. }
           assert (is_space c = false) as Hc2.
           { apply sentinel_solid. rewrite Hh. apply elem_of_app. right. by left. }
           congruence.
      * subst i. rewrite Hi, occurs_intro in Hocc. done.
    + (* it starts in the whitespace *)
      by eapply blank_no_sentinel in Hi'.
Qed.


(** ** The read loop on a framed response *)

Lemma read_until_sentinel_eq reads output :
  read_until_sentinel reads output
  = if endswith (strip (last_bytes 32 output)) sentinel then Some (output, reads)
    else match reads with
         | [] => None
         | chunk :: rest => read_until_sentinel rest (output ++ chunk)
         end.
Proof. by destruct reads. Qed.

Lemma read_until_sentinel_framed payload space trail :
  is_blank space = true -> is_blank trail = true -> length trail <= 25 ->
  occurs sentinel payload = false ->
  forall reads output,
    output ++ concat reads = payload ++ space ++ sentinel ++ trail ->
    exists out rest,
      read_until_sentinel reads output = Some (out, rest)
      /\ drop_last (length sentinel) (strip out) = lstrip (payload ++ space)
      /\ is_blank (concat rest) = true.
Proof.
  intros Hs Ht Hlen Hocc reads.
  assert (forall output rest,
    endswith (strip (last_bytes 32 output)) sentinel = true ->
    output ++ concat rest = payload ++ space ++ sentinel ++ trail ->
    drop_last (length sentinel) (strip output) = lstrip (payload ++ space)
    /\ is_blank (concat rest) = true) as Hstop.
  { intros output rest (pre & k & -> & Hk)%loop_test_split Heq.
    rewrite <- !app_assoc in Heq.
    apply sentinel_unique in Heq as [-> Heq]; [|done..].
    split; [by apply framed_result|].
    rewrite <- Heq, is_blank_app in Ht. by apply andb_true_iff in Ht as [_ ?]. }
  induction reads as [|chunk reads IH]; intros output Heq;
    rewrite read_until_sentinel_eq; destruct (endswith _ _) eqn:Htest.
  - eexists _, _. split; [done|]. by apply Hstop.
  - change (concat []) with (@nil byte) in Heq.
    rewrite app_nil_r in Heq. subst output.
    rewrite (app_assoc payload), loop_test_framed in Htest by done. done.
  - eexists _, _. split; [done|]. by apply Hstop.
  - apply IH. change (concat (chunk :: reads)) with (chunk ++ concat reads) in Heq.
    by rewrite <- app_assoc.
Qed.

(** ** [start] and [terminate] *)

Section Lifecycle.
Context (E : Env).

Lemma start_running self et w :
  heap w !! self = Some et -> running et = true ->
  start E self w = (Returns tt, log (Warned already_running) w).
Proof.
  intros H Hr. unfold start.
  rewrite (bind_returns _ _ _ _ _ (deref_some _ _ _ H)). by rewrite Hr.
Qed.

Lemma start_stopped self et w :
  heap w !! self = Some et -> running et = false ->
  popen_ok E (executable et) = true ->
  start E self w
  = (Returns tt,
     store self (mkExifTool (executable et) true (Some (mkPopen (next_pid w) [] [])))
       (spawn (argv_of (executable et)) w)).
Proof.
  intros H Hr Hok. unfold start.
  rewrite (bind_returns _ _ _ _ _ (deref_some _ _ _ H)). rewrite Hr.
  unfold bind at 1, popen. simpl. rewrite Hok.
  unfold bind. rewrite (set_process_spec _ et) by heap_tac.
  erewrite set_running_spec by heap_tac.
  simpl. by rewrite store_store.
Qed.

Lemma start_popen_fails self et w :
  heap w !! self = Some et -> running et = false ->
  popen_ok E (executable et) = false ->
  start E self w = (Raises OSError, w).
Proof.
  intros H Hr Hok. unfold start.
  rewrite (bind_returns _ _ _ _ _ (deref_some _ _ _ H)). rewrite Hr.
  unfold bind, popen. simpl. by rewrite Hok.
Qed.

Lemma terminate_stopped self et w :
  heap w !! self = Some et -> running et = false ->
  terminate E self w = (Returns tt, w).
Proof.
  intros H Hr. unfold terminate.
  rewrite (bind_returns _ _ _ _ _ (deref_some _ _ _ H)). by rewrite Hr.
Qed.

Lemma terminate_running self et p w :
  heap w !! self = Some et -> running et = true -> _process et = Some p ->
  exits E (pid p) (trace w) = false ->
  terminate E self w
  = (Returns tt,
     store self (mkExifTool (executable et) false None)
       (log (Waited (pid p))
          (log (Sent (pid p) (stdin_buffer p ++ stay_open_false)) w))).
Proof.
  intros H Hr Hp Hlive. unfold terminate.
  rewrite (bind_returns _ _ _ _ _ (deref_some _ _ _ H)). rewrite Hr. simpl.
  erewrite bind_returns by (by eapply stdin_write_spec).
  erewrite bind_returns by (eapply stdin_flush_spec; [heap_tac | done..]).
  erewrite bind_returns by (eapply communicate_spec; [heap_tac | done]).
  erewrite bind_returns by (eapply set_process_spec; heap_tac).
  erewrite set_running_spec by heap_tac.
  simpl. by rewrite <- !log_store, !store_store.
Qed.

(** On a subprocess that has exited, [terminate] fails at the flush:
    the directive stays in the buffer and the session stays as it
    was, running. *)
Lemma terminate_broken self et p w :
  heap w !! self = Some et -> running et = true -> _process et = Some p ->
  exits E (pid p) (trace w) = true ->
  terminate E self w
  = (Raises BrokenPipeError,
     store self (mkExifTool (executable et) true
                   (Some (mkPopen (pid p) (stdin_buffer p ++ stay_open_false)
                            (stdout_pending p)))) w).
Proof.
  intros H Hr Hp Hgone. unfold terminate.
  rewrite (bind_returns _ _ _ _ _ (deref_some _ _ _ H)). rewrite Hr. simpl.
  erewrite bind_returns by (by eapply stdin_write_spec).
  erewrite bind_raises by (eapply stdin_flush_broken; [heap_tac|done..]).
  by rewrite Hr.
Qed.

End Lifecycle.

(** ** [execute] and [execute_json] *)

Section Execute.
Context (E : Env).

Lemma execute_stopped self et params w :
  heap w !! self = Some et -> running et = false ->
  execute E self params w = (Raises (ValueError not_running), w).
Proof.
  intros H Hr. unfold execute.
  rewrite (bind_returns _ _ _ _ _ (deref_some _ _ _ H)). by rewrite Hr.
Qed.

(** A running [execute]: the request is sent, the answer of the
    subprocess joins what the pipe still held, and the loop reads. *)
Lemma execute_running self et p params w :
  heap w !! self = Some et -> running et = true -> _process et = Some p ->
  exits E (pid p) (trace w) = false ->
  let data := stdin_buffer p ++ request params in
  let w' := log (Sent (pid p) data) w in
  execute E self params w
  = match read_until_sentinel (stdout_pending p ++ tool E data) [] with
    | Some (output, rest) =>
        (Returns (drop_last (length sentinel) (strip output)),
         store self (mkExifTool (executable et) true (Some (mkPopen (pid p) [] rest))) w')
    | None =>
        (Hangs,
         store self (mkExifTool (executable et) true (Some (mkPopen (pid p) [] []))) w')
    end.
Proof.
  intros H Hr Hp Hlive data w'. unfold execute.
  rewrite (bind_returns _ _ _ _ _ (deref_some _ _ _ H)). rewrite Hr. cbn [negb].
  erewrite bind_returns by (by eapply stdin_write_spec).
  erewrite bind_returns by (eapply stdin_flush_spec; [heap_tac | done..]).
  norm_store. rewrite Hr. fold data. fold w'.
  unfold read_output, bind at 1.
  erewrite (bind_returns (get_process self))
    by (eapply get_process_spec; [heap_tac | done]).
  cbn [pid stdin_buffer stdout_pending].
  destruct (read_until_sentinel _ _) as [[output rest]|].
  - erewrite bind_returns by (eapply set_process_spec; heap_tac).
    unfold ret. by norm_store.
  - erewrite bind_returns by (eapply set_process_spec; heap_tac).
    by norm_store.
Qed.

(** On a subprocess that has exited, [execute] fails at the flush:
    nothing is sent, and the request stays in the buffer. *)
Lemma execute_broken self et p params w :
  heap w !! self = Some et -> running et = true -> _process et = Some p ->
  exits E (pid p) (trace w) = true ->
  execute E self params w
  = (Raises BrokenPipeError,
     store self (mkExifTool (executable et) true
                   (Some (mkPopen (pid p) (stdin_buffer p ++ request params)
                            (stdout_pending p)))) w).
Proof.
  intros H Hr Hp Hgone. unfold execute.
  rewrite (bind_returns _ _ _ _ _ (deref_some _ _ _ H)). rewrite Hr. cbn [negb].
  erewrite bind_returns by (by eapply stdin_write_spec).
  erewrite bind_raises by (eapply stdin_flush_broken; [heap_tac|done..]).
  by rewrite Hr.
Qed.

Lemma execute_json_stopped self et params params' w :
  heap w !! self = Some et -> running et = false ->
  mapM (fsencode E) params = Some params' ->
  execute_json E self params w = (Raises (ValueError not_running), w).
Proof.
  intros H Hr Hp. unfold execute_json. rewrite Hp.
  by erewrite bind_raises by (by eapply execute_stopped).
Qed.

Lemma execute_json_unencodable self params w :
  mapM (fsencode E) params = None ->
  execute_json E self params w = (Raises UnicodeEncodeError, w).
Proof. intros Hp. unfold execute_json. by rewrite Hp. Qed.

End Execute.

(** [fsencode] returns raw bytes as they are. *)
Lemma mapM_fsencode_bytes E (raws : list bytes) :
  mapM (fsencode E) (PBytes <$> raws) = Some raws.
Proof.
  induction raws as [|raw raws IH]; [done|].
  change (mapM (fsencode E) (PBytes <$> raw :: raws))
    with (mapM (fsencode E) (PBytes <$> raws) ≫= (fun k => mret (raw :: k))).
  by rewrite IH.
Qed.

(** ** Claims on the session *)

(** C1 (as stated, refuted): the subprocess writes [abc {ready}] and a
    newline, that is the payload [abc], one space, the sentinel and
    trailing whitespace; [execute] returns [abc] with the space, not
    the payload. *)
Lemma execute_keeps_space_before_sentinel :
  concat (tool (sample_env [lit "abc {ready}" ++ nl] []) (request []))
  = lit "abc" ++ lit " " ++ sentinel ++ nl
  /\ fst (execute (sample_env [lit "abc {ready}" ++ nl] []) 0 [] busy_world)
     = Returns (lit "abc ")
  /\ lit "abc " <> lit "abc".
Proof. split; [|split]; [by vm_compute..|]. by vm_compute. Qed.

(** The two bounds of the amended claim are needed.  With 26 bytes of
    whitespace after the sentinel the last 32 bytes of the output no
    longer hold the whole sentinel, and the loop waits for more. *)
Example execute_hangs_on_long_trail :
  fst (execute (sample_env [lit "abc{ready}" ++ replicate 26 " "%byte] []) 0 []
         busy_world)
  = Hangs.
Proof. by vm_compute. Qed.

(** A payload that contains the sentinel at the end of a read stops
    the loop there: the rest of the response stays in the pipe. *)
Example execute_stops_at_sentinel_in_payload :
  exists w',
    execute (sample_env [lit "{ready}"; lit "x{ready}" ++ nl] []) 0 [] busy_world
    = (Returns [], w')
    /\ (_process <$> heap w' !! 0)
       = Some (Some (mkPopen 0 [] [lit "x{ready}" ++ nl])).
Proof. eexists. split; by vm_compute. Qed.

(** C1 (amended): on a running session whose subprocess has not
    exited and answers a batch with [payload], whitespace [space], the
    sentinel and at most 25 bytes of whitespace [trail], where [payload]
    does not contain the sentinel, [execute] returns [payload ++ space]
    less its leading whitespace, however the response is cut into
    reads: the sentinel, the whitespace after it and the whitespace at
    the very start are removed, the whitespace before the sentinel is
    kept.  The session stays running and only whitespace is left in the
    pipe. *)
Theorem execute_returns_framed_payload E self et p params w payload space trail :
  heap w !! self = Some et -> running et = true -> _process et = Some p ->
  exits E (pid p) (trace w) = false ->
  concat (stdout_pending p ++ tool E (stdin_buffer p ++ request params))
  = payload ++ space ++ sentinel ++ trail ->
  is_blank space = true -> is_blank trail = true -> length trail <= 25 ->
  occurs sentinel payload = false ->
  exists rest,
    execute E self params w
    = (Returns (lstrip (payload ++ space)),
       store self (mkExifTool (executable et) true (Some (mkPopen (pid p) [] rest)))
         (log (Sent (pid p) (stdin_buffer p ++ request params)) w))
    /\ is_blank (concat rest) = true.
Proof.
  intros H Hr Hp Hlive Hreads Hs Ht Hlen Hocc.
  destruct (read_until_sentinel_framed payload space trail Hs Ht Hlen Hocc
              (stdout_pending p ++ tool E (stdin_buffer p ++ request params)) [])
    as (out & rest & Hloop & Hres & Hrest); [done|].
  exists rest. split; [|done].
  rewrite (execute_running E self et p params w H Hr Hp Hlive). cbv zeta.
  by rewrite Hloop, Hres.
Qed.

Lemma execute_returns_framed_payload_witness :
  heap busy_world !! 0 = Some busy_session
  /\ occurs sentinel (lit "abc") = false
  /\ exists rest,
       execute (sample_env [lit "abc "; lit "{rea"; lit "dy}" ++ nl] []) 0
         [lit "a.jpg"] busy_world
       = (Returns (lstrip (lit "abc" ++ lit " ")),
          store 0 (mkExifTool "exiftool" true (Some (mkPopen 0 [] rest)))
            (log (Sent 0 ([] ++ request [lit "a.jpg"])) busy_world))
       /\ is_blank (concat rest) = true.
Proof.
  split; [reflexivity|]. split; [reflexivity|].
  apply (execute_returns_framed_payload
           (sample_env [lit "abc "; lit "{rea"; lit "dy}" ++ nl] [])
           0 busy_session (mkPopen 0 [] []) [lit "a.jpg"] busy_world
           (lit "abc") (lit " ") nl);
    try reflexivity.
  simpl. lia.
Defined.

(** C2 (as stated, refuted): on a session that is not running,
    [execute_json] with a text parameter that the filesystem encoding
    cannot encode (here a name outside ASCII under an ASCII encoding)
    raises the encoding error, not the invalid-state error: the
    parameters are encoded before [execute] tests the running flag. *)
Lemma execute_json_unencodable_raises :
  heap idle_world !! 0 = Some idle_session
  /\ running idle_session = false
  /\ execute_json ascii_env 0 [PStr (String (Ascii.ascii_of_nat 233) ".jpg")] idle_world
     = (Raises UnicodeEncodeError, idle_world)
  /\ UnicodeEncodeError <> ValueError not_running.
Proof. split; [done|]. split; [done|]. split; [by vm_compute|done]. Qed.

(** C2 (amended): on a session that is not running, [execute] raises
    the [ValueError] "ExifTool instance not running." and leaves the
    store as it was: no object changes and nothing is sent.
    [execute_json] raises that same error exactly when all its
    parameters can be encoded, as raw bytes parameters always can; when
    a text parameter cannot be encoded it raises the encoding error
    instead.  In both cases the store is left as it was. *)
Theorem execute_not_running_raises E self et w params jparams :
  heap w !! self = Some et -> running et = false ->
  execute E self params w = (Raises (ValueError not_running), w)
  /\ execute_json E self jparams w
     = (Raises (match mapM (fsencode E) jparams with
                | Some _ => ValueError not_running
                | None => UnicodeEncodeError
                end), w)
  /\ (forall raws : list bytes,
        execute_json E self (PBytes <$> raws) w = (Raises (ValueError not_running), w)).
Proof.
  intros H Hr. split; [by eapply execute_stopped|]. split.
  - destruct (mapM (fsencode E) jparams) as [encoded|] eqn:Henc.
    + by eapply execute_json_stopped.
    + by apply execute_json_unencodable.
  - intros raws. eapply execute_json_stopped; [done..|apply mapM_fsencode_bytes].
Qed.

Lemma execute_not_running_raises_witness :
  heap idle_world !! 0 = Some idle_session
  /\ running idle_session = false
  /\ execute (sample_env [] []) 0 [lit "-ver"] idle_world
     = (Raises (ValueError not_running), idle_world)
  /\ execute_json (sample_env [] []) 0 [PStr "a.jpg"] idle_world
     = (Raises (ValueError not_running), idle_world)
  /\ execute_json ascii_env 0 [PStr (String (Ascii.ascii_of_nat 233) ".jpg")] idle_world
     = (Raises UnicodeEncodeError, idle_world).
Proof.
  split; [reflexivity|]. split; [reflexivity|].
  destruct (execute_not_running_raises (sample_env [] []) 0 idle_session idle_world
              [lit "-ver"] [PStr "a.jpg"] eq_refl eq_refl) as (H1 & H2 & _).
  split; [exact H1|]. split; [exact H2|].
  exact (proj1 (proj2 (execute_not_running_raises ascii_env 0 idle_session idle_world
                         [] [PStr (String (Ascii.ascii_of_nat 233) ".jpg")]
                         eq_refl eq_refl))).
Defined.

(** C8: [start] on a running session returns normally and only emits
    the warning: no object of the store changes, so the session is
    still running with the same process handle, and no subprocess is
    launched. *)
Theorem start_running_noop E self et w :
  heap w !! self = Some et -> running et = true ->
  exists w',
    start E self w = (Returns tt, w')
    /\ heap w' = heap w
    /\ heap w' !! self = Some et
    /\ next_pid w' = next_pid w
    /\ trace w' = trace w ++ [Warned already_running].
Proof.
  intros H Hr. exists (log (Warned already_running) w).
  split; [by eapply start_running|done].
Qed.

Lemma start_running_noop_witness :
  heap busy_world !! 0 = Some busy_session
  /\ running busy_session = true
  /\ exists w',
       start (sample_env [] []) 0 busy_world = (Returns tt, w')
       /\ heap w' = heap busy_world
       /\ heap w' !! 0 = Some busy_session
       /\ next_pid w' = next_pid busy_world
       /\ trace w' = trace busy_world ++ [Warned already_running].
Proof.
  split; [reflexivity|]. split; [reflexivity|].
  exact (start_running_noop (sample_env [] []) 0 busy_session busy_world eq_refl eq_refl).
Defined.

Lemma session_ok_stopped w et :
  session_ok w et = true -> running et = false ->
  et = mkExifTool (executable et) false None.
Proof.
  destruct et as [exe run [p|]]; unfold session_ok; simpl; intros Hok ->.
  - done.
  - done.
Qed.

Lemma session_ok_running w et :
  session_ok w et = true -> running et = true ->
  exists p, _process et = Some p /\ pid p < next_pid w.
Proof.
  destruct et as [exe run [p|]]; unfold session_ok; simpl; intros Hok ->.
  - exists p. split; [done|]. by apply bool_decide_eq_true in Hok.
  - done.
Qed.

(** Unless the subprocess has exited on its own, [terminate] returns
    and leaves the session stopped, without a process handle. *)
Lemma terminate_returns E self et w :
  heap w !! self = Some et -> session_ok w et = true ->
  (forall p, _process et = Some p -> exits E (pid p) (trace w) = false) ->
  exists w',
    terminate E self w = (Returns tt, w')
    /\ heap w' !! self = Some (mkExifTool (executable et) false None)
    /\ next_pid w' = next_pid w
    /\ (running et = false -> w' = w).
Proof.
  intros H Hok Hlive. destruct (running et) eqn:Hr.
  - destruct (session_ok_running _ _ Hok Hr) as (p & Hp & _).
    eexists. split; [eapply terminate_running; eauto|].
    split; [heap_tac|done].
  - exists w. split; [by eapply terminate_stopped|].
    split; [|done]. by rewrite <- (session_ok_stopped _ _ Hok Hr).
Qed.

(** C9 (as stated, refuted): a session runs on a subprocess that has
    exited on its own.  [terminate] raises [BrokenPipeError] at the
    flush of its directive and leaves the session running; a second
    [terminate] raises again, and the [start] after it only warns:
    nothing is launched. *)
Lemma terminate_raises_when_subprocess_exited :
  heap busy_world !! 0 = Some busy_session
  /\ session_ok busy_world busy_session = true
  /\ exists w1 w2 w3,
       terminate gone_env 0 busy_world = (Raises BrokenPipeError, w1)
       /\ running <$> heap w1 !! 0 = Some true
       /\ terminate gone_env 0 w1 = (Raises BrokenPipeError, w2)
       /\ running <$> heap w2 !! 0 = Some true
       /\ start gone_env 0 w2 = (Returns tt, w3)
       /\ trace w3 = trace busy_world ++ [Warned already_running]
       /\ next_pid w3 = next_pid busy_world.
Proof.
  split; [done|]. split; [done|]. eexists _, _, _.
  split; [by vm_compute|]. split; [done|].
  split; [by vm_compute|]. split; [done|].
  split; [by vm_compute|]. done.
Qed.

(** C9 (amended): [terminate] on a session that is not running returns
    and leaves the store as it was.  From a running session whose
    subprocess has not exited on its own, two calls of [terminate] in a
    row both return, the session is stopped after the first and after
    the second, and the second changes nothing; a [start] after that,
    when the executable can be launched, returns with the session
    running on a process launched by that call, whose id no earlier
    handle of the session had.  From a running session whose subprocess
    has exited, each call of [terminate] raises [BrokenPipeError] and
    leaves the session running on its handle, with one more directive
    in the buffer of the pipe and nothing sent; a [start] after that
    only warns. *)
Theorem terminate_twice_then_start E self et w :
  heap w !! self = Some et -> session_ok w et = true ->
  (running et = false -> terminate E self w = (Returns tt, w))
  /\ ((forall p, _process et = Some p -> exits E (pid p) (trace w) = false) ->
      exists w1,
        terminate E self w = (Returns tt, w1)
        /\ heap w1 !! self = Some (mkExifTool (executable et) false None)
        /\ terminate E self w1 = (Returns tt, w1)
        /\ (popen_ok E (executable et) = true ->
            exists w2,
              start E self w1 = (Returns tt, w2)
              /\ heap w2 !! self
                 = Some (mkExifTool (executable et) true
                           (Some (mkPopen (next_pid w1) [] [])))
              /\ trace w2 = trace w1 ++ [Spawned (next_pid w1) (argv_of (executable et))]
              /\ next_pid w2 = S (next_pid w1)
              /\ (forall p, _process et = Some p -> pid p <> next_pid w1)))
  /\ (forall p, _process et = Some p -> exits E (pid p) (trace w) = true ->
      let broken buffer :=
        store self (mkExifTool (executable et) true
                      (Some (mkPopen (pid p) buffer (stdout_pending p)))) w in
      let w1 := broken (stdin_buffer p ++ stay_open_false) in
      let w2 := broken ((stdin_buffer p ++ stay_open_false) ++ stay_open_false) in
      terminate E self w = (Raises BrokenPipeError, w1)
      /\ terminate E self w1 = (Raises BrokenPipeError, w2)
      /\ start E self w2 = (Returns tt, log (Warned already_running) w2)).
Proof.
  intros H Hok. split; [intros Hr; by eapply terminate_stopped|]. split.
  - intros Hlive.
    destruct (terminate_returns E self et w H Hok Hlive) as (w1 & Ht & H1 & Hn & _).
    exists w1. split; [done|]. split; [done|].
    split; [by eapply terminate_stopped|].
    intros Hpopen. eexists. split; [by eapply start_stopped|].
    split; [heap_tac|]. split; [done|]. split; [done|].
    intros p Hp. rewrite Hn. unfold session_ok in Hok. rewrite Hp in Hok.
    apply andb_true_iff in Hok as [_ Hlt%bool_decide_eq_true]. lia.
  - intros p Hp Hgone broken w1 w2.
    assert (running et = true) as Hr.
    { unfold session_ok in Hok. rewrite Hp in Hok.
      by apply andb_true_iff in Hok as [? _]. }
    split; [by apply terminate_broken|]. split.
    + subst w1 w2 broken. cbv beta.
      erewrite terminate_broken; [|heap_tac|done..].
      by norm_store.
    + eapply start_running; [subst w2 broken; heap_tac|done].
Qed.

Lemma terminate_twice_then_start_witness :
  heap busy_world !! 0 = Some busy_session
  /\ session_ok busy_world busy_session = true
  /\ exists w1 w2,
       terminate (sample_env [] []) 0 busy_world = (Returns tt, w1)
       /\ heap w1 !! 0 = Some idle_session
       /\ terminate (sample_env [] []) 0 w1 = (Returns tt, w1)
       /\ start (sample_env [] []) 0 w1 = (Returns tt, w2)
       /\ heap w2 !! 0
          = Some (mkExifTool "exiftool" true (Some (mkPopen (next_pid w1) [] []))).
Proof.
  split; [reflexivity|]. split; [reflexivity|].
  destruct (terminate_twice_then_start (sample_env [] []) 0 busy_session busy_world
              eq_refl eq_refl) as (_ & Hlive & _).
  destruct (Hlive (fun _ _ => eq_refl)) as (w1 & H1 & H2 & H3 & H4).
  destruct (H4 eq_refl) as (w2 & H5 & H6 & _).
  exists w1, w2. split; [exact H1|]. split; [exact H2|]. split; [exact H3|].
  split; [exact H5|exact H6].
Defined.

(** ** [execute_json] on a running session *)

Section Query.
Context (E : Env).

Lemma execute_json_running self et p params records rest w :
  heap w !! self = Some et -> running et = true -> _process et = Some p ->
  exits E (pid p) (trace w) = false ->
  answer E p params = Some (records, rest) ->
  exists data,
    json_request E p params = Some data
    /\ execute_json E self params w
       = (Returns records,
          store self (mkExifTool (executable et) true (Some (mkPopen (pid p) [] rest)))
            (log (Sent (pid p) data) w)).
Proof.
  intros H Hr Hp Hlive. unfold answer, json_request, execute_json.
  destruct (mapM (fsencode E) params) as [encoded|]; [|done]. simpl.
  intros Hans. eexists. split; [done|].
  unfold bind. rewrite (execute_running E self et p _ w H Hr Hp Hlive). cbv zeta.
  destruct (read_until_sentinel _ _) as [[output rest']|]; [|done]. simpl in Hans.
  destruct (json_loads E _) as [records'|]; [|done]. simpl in Hans.
  by injection Hans as -> ->.
Qed.


End Query.

(** ** The session policy of [MultiFileMetadata._execute] *)

Section Policy.
Context (E : Env).

Lemma multi_execute_running v et params w :
  heap w !! exif_tool v = Some et -> running et = true ->
  MultiFileMetadata_execute E v params w = execute_json E (exif_tool v) params w.
Proof.
  intros H Hr. unfold MultiFileMetadata_execute.
  rewrite (bind_returns _ _ _ _ _ (deref_some _ _ _ H)). by rewrite Hr.
Qed.



(** On a stopped session a query that the subprocess answers returns
    its records, and the session is stopped again. *)
Lemma multi_execute_private v et params records rest w :
  heap w !! exif_tool v = Some et -> running et = false ->
  popen_ok E (executable et) = true ->
  stays_alive E (next_pid w) w ->
  answer E (mkPopen (next_pid w) [] []) params = Some (records, rest) ->
  exists data,
    json_request E (mkPopen (next_pid w) [] []) params = Some data
    /\ MultiFileMetadata_execute E v params w
       = (Returns records,
          store (exif_tool v) (mkExifTool (executable et) false None)
            (log (Waited (next_pid w))
               (log (Sent (next_pid w) stay_open_false)
                  (log (Sent (next_pid w) data)
                     (spawn (argv_of (executable et)) w))))).
Proof.
  intros H Hr Hpopen Hlive Hans. unfold MultiFileMetadata_execute.
  rewrite (bind_returns _ _ _ _ _ (deref_some _ _ _ H)). rewrite Hr.
  unfold with_, __enter__.
  erewrite bind_returns.
  2:{ erewrite bind_returns by (by eapply start_stopped). reflexivity. }
  set (w1 := store _ _ _).
  edestruct (execute_json_running E (exif_tool v)
               (mkExifTool (executable et) true (Some (mkPopen (next_pid w) [] [])))
               (mkPopen (next_pid w) [] []) params records rest w1)
    as (data & Hdata & Hq); [subst w1; heap_tac|done|done|subst w1; alive_tac|done|].
  exists data. split; [done|]. rewrite Hq. unfold __exit__.
  erewrite terminate_running; [|heap_tac|done|done|subst w1; alive_tac].
  subst w1. by norm_store.
Qed.

End Policy.

(** ** The invariant holds between the calls *)

Section Invariant.
Context (E : Env).

Lemma session_ok_next w w' et :
  session_ok w et = true -> next_pid w <= next_pid w' -> session_ok w' et = true.
Proof.
  unfold session_ok. destruct (_process et) as [p|]; [|done].
  intros [-> Hlt%bool_decide_eq_true]%andb_true_iff Hle. simpl.
  apply bool_decide_eq_true. lia.
Qed.

Lemma world_ok_lookup w self et :
  world_ok w -> heap w !! self = Some et -> session_ok w et = true.
Proof. intros Hok H. by eapply (Forall_lookup_1 _ _ _ _ Hok). Qed.

Lemma world_ok_log ev w : world_ok w -> world_ok (log ev w).
Proof. done. Qed.

Lemma world_ok_spawn argv w : world_ok w -> world_ok (spawn argv w).
Proof.
  unfold world_ok. simpl. intros Hok. eapply Forall_impl; [exact Hok|].
  intros et Het. apply (session_ok_next w); [exact Het|]. simpl. lia.
Qed.

Lemma world_ok_alloc w exe : world_ok w -> world_ok (alloc (mkExifTool exe false None) w).
Proof.
  unfold world_ok. simpl. intros Hok. apply Forall_app. split; [done|].
  by repeat constructor.
Qed.

Lemma world_ok_store self et w :
  world_ok w -> session_ok w et = true -> world_ok (store self et w).
Proof. unfold world_ok. simpl. intros Hok Het. by apply Forall_insert. Qed.

Lemma preserves_bind {A B} (m : M A) (k : A -> M B) :
  preserves m -> (forall a, preserves (k a)) -> preserves (bind m k).
Proof.
  intros Hm Hk w r w' Hok. unfold bind.
  destruct (m w) as [[a|e|] w0] eqn:Hrun.
  - intros Hrun'. eapply (Hk a); [|done]. by eapply Hm.
  - intros [= <- <-]. by eapply Hm.
  - intros [= <- <-]. by eapply Hm.
Qed.

Lemma preserves_ret {A} (a : A) : preserves (ret a).
Proof. by intros w r w' Hok [= <- <-]. Qed.

Lemma preserves_raise {A} e : preserves (@raise A e).
Proof. by intros w r w' Hok [= <- <-]. Qed.

Lemma ExifTool_init_preserves executable_ : preserves (ExifTool_init executable_).
Proof. intros w r w' Hok [= <- <-]. by apply world_ok_alloc. Qed.

Lemma deref_none {A} self (k : ExifTool -> M A) w :
  heap w !! self = None -> bind (deref self) k w = (Raises NoSuchObject, w).
Proof. intros H. unfold bind, deref. by rewrite H. Qed.

Lemma start_preserves self : preserves (start E self).
Proof.
  intros w r w' Hok. destruct (heap w !! self) as [et|] eqn:H.
  - destruct (running et) eqn:Hr.
    + rewrite (start_running E self et w H Hr). by intros [= <- <-].
    + destruct (popen_ok E (executable et)) eqn:Hpopen.
      * rewrite (start_stopped E self et w H Hr Hpopen). intros [= <- <-].
        apply world_ok_store; [by apply world_ok_spawn|].
        unfold session_ok. simpl. apply bool_decide_eq_true. lia.
      * rewrite (start_popen_fails E self et w H Hr Hpopen). by intros [= <- <-].
  - unfold start. rewrite deref_none by done. by intros [= <- <-].
Qed.

Lemma terminate_preserves self : preserves (terminate E self).
Proof.
  intros w r w' Hok. destruct (heap w !! self) as [et|] eqn:H.
  - destruct (running et) eqn:Hr.
    + destruct (session_ok_running _ _ (world_ok_lookup _ _ _ Hok H) Hr) as (p & Hp & Hlt).
      destruct (exits E (pid p) (trace w)) eqn:Hlive.
      * rewrite (terminate_broken E self et p w H Hr Hp Hlive). intros [= <- <-].
        apply world_ok_store; [done|].
        unfold session_ok. simpl. by apply bool_decide_eq_true.
      * rewrite (terminate_running E self et p w H Hr Hp Hlive). intros [= <- <-].
        by apply world_ok_store.
    + rewrite (terminate_stopped E self et w H Hr). by intros [= <- <-].
  - unfold terminate. rewrite deref_none by done. by intros [= <- <-].
Qed.

Lemma execute_preserves self params : preserves (execute E self params).
Proof.
  intros w r w' Hok. destruct (heap w !! self) as [et|] eqn:H.
  - pose proof (world_ok_lookup _ _ _ Hok H) as Het.
    destruct (running et) eqn:Hr.
    + destruct (session_ok_running _ _ Het Hr) as (p & Hp & Hlt).
      destruct (exits E (pid p) (trace w)) eqn:Hlive.
      * rewrite (execute_broken E self et p params w H Hr Hp Hlive). intros [= <- <-].
        apply world_ok_store; [done|].
        unfold session_ok. simpl. by apply bool_decide_eq_true.
      * rewrite (execute_running E self et p params w H Hr Hp Hlive). cbv zeta.
        destruct (read_until_sentinel _ _) as [[output rest]|]; intros [= <- <-];
          (apply world_ok_store; [done|]);
          unfold session_ok; simpl; apply bool_decide_eq_true; done.
    + rewrite (execute_stopped E self et params w H Hr). by intros [= <- <-].
  - unfold execute. rewrite deref_none by done. by intros [= <- <-].
Qed.

Lemma execute_json_preserves self params : preserves (execute_json E self params).
Proof.
  unfold execute_json. destruct (mapM (fsencode E) params) as [encoded|].
  - apply preserves_bind; [apply execute_preserves|].
    intros raw. destruct (json_loads E raw); [apply preserves_ret|apply preserves_raise].
  - apply preserves_raise.
Qed.

Lemma with_preserves {A} self (body : nat -> M A) :
  (forall et, preserves (body et)) -> preserves (with_ E self body).
Proof.
  intros Hbody. unfold with_. apply preserves_bind.
  - unfold __enter__. apply preserves_bind; [apply start_preserves|].
    intros _. apply preserves_ret.
  - intros et w r w' Hok.
    destruct (body et w) as [r0 w0] eqn:Hrun.
    pose proof (Hbody et w r0 w0 Hok Hrun) as Hok0.
    unfold __exit__.
    destruct (terminate E self w0) as [r1 w1] eqn:Hterm.
    pose proof (terminate_preserves self w0 r1 w1 Hok0 Hterm) as Hok1.
    destruct r0 as [a|e|]; [| |by intros [= <- <-]];
      destruct r1 as [[]|e1|]; by intros [= <- <-].
Qed.

Lemma multi_execute_preserves v params :
  preserves (MultiFileMetadata_execute E v params).
Proof.
  unfold MultiFileMetadata_execute.
  intros w r w' Hok. destruct (heap w !! exif_tool v) as [et|] eqn:H.
  - rewrite (bind_returns _ _ _ _ _ (deref_some _ _ _ H)).
    destruct (running et).
    + by apply execute_json_preserves.
    + apply with_preserves; [|done]. intros et'. apply execute_json_preserves.
  - rewrite deref_none by done. by intros [= <- <-].
Qed.

(** Every public operation keeps the invariant of the sessions:
    between the calls a session runs exactly when it holds a handle. *)
Theorem operations_preserve_invariant :
  (forall executable_, preserves (batch executable_))
  /\ (forall self, preserves (start E self))
  /\ (forall self, preserves (terminate E self))
  /\ (forall self params, preserves (execute E self params))
  /\ (forall self params, preserves (execute_json E self params))
  /\ (forall self file_paths, preserves (ExifTool_metadata E self file_paths))
  /\ (forall v, preserves (MultiFileMetadata_iter E v))
  /\ (forall v key, preserves (MultiFileMetadata_getitem E v key))
  /\ (forall file_paths, preserves (metadata E file_paths)).
Proof.
  assert (forall self file_paths, preserves (ExifTool_metadata E self file_paths)) as Hm.
  { intros self file_paths. unfold ExifTool_metadata.
    destruct file_paths as [|file_path [|second rest]]; [apply preserves_ret| |apply preserves_ret].
    destruct (isfile E file_path); [|apply preserves_ret].
    apply preserves_bind; [apply execute_json_preserves|].
    intros [|exif_values others]; [apply preserves_raise|apply preserves_ret]. }
  split; [exact ExifTool_init_preserves|].
  split; [exact start_preserves|].
  split; [exact terminate_preserves|].
  split; [exact execute_preserves|].
  split; [exact execute_json_preserves|].
  split; [exact Hm|].
  split; [|split].
  - intros v. apply preserves_bind; [apply multi_execute_preserves|].
    intros records. apply preserves_ret.
  - intros v key. apply preserves_bind; [apply multi_execute_preserves|].
    intros records. apply preserves_ret.
  - intros file_paths. unfold metadata.
    apply preserves_bind; [apply ExifTool_init_preserves|].
    intros et. apply with_preserves. intros et'. apply Hm.
Qed.

End Invariant.

(** ** Claims on the multi-file view *)





(** The exception left out above: when the subprocess launched for the
    call has exited on its own, the query and then [terminate] fail at
    the flush, the call raises [BrokenPipeError], and the session that
    was stopped is left running. *)
Example view_operation_on_exited_subprocess :
  exists w',
    MultiFileMetadata_iter gone_env sample_view idle_world = (Raises BrokenPipeError, w')
    /\ running <$> heap w' !! 0 = Some true
    /\ trace w' = [Spawned 0 (argv_of "exiftool")].
Proof. eexists. split; [by vm_compute|]. split; by vm_compute. Qed.

(** A query that the serving process answers returns its records,
    whether the session runs or not. *)
Lemma multi_execute_answers E v et params records rest w :
  heap w !! exif_tool v = Some et -> session_ok w et = true ->
  (running et = false -> popen_ok E (executable et) = true) ->
  stays_alive E (pid (serving_process w et)) w ->
  answer E (serving_process w et) params = Some (records, rest) ->
  exists w', MultiFileMetadata_execute E v params w = (Returns records, w').
Proof.
  intros H Hok Hpopen Hlive Hans. destruct (running et) eqn:Hr.
  - destruct (session_ok_running _ _ Hok Hr) as (p & Hp & _).
    unfold serving_process in Hans, Hlive. rewrite Hp in Hans, Hlive.
    rewrite (multi_execute_running E v et params w H Hr).
    destruct (execute_json_running E _ _ _ _ _ _ w H Hr Hp (stays_alive_now _ _ _ Hlive) Hans)
      as (data & _ & ->).
    by eexists.
  - unfold serving_process in Hans, Hlive.
    rewrite (session_ok_stopped _ _ Hok Hr) in Hans, Hlive. simpl in Hans, Hlive.
    destruct (multi_execute_private E v et params records rest w H Hr (Hpopen eq_refl)
                Hlive Hans)
      as (data & _ & ->).
    by eexists.
Qed.

(** A framed response that decodes is read to its end by the loop of
    [execute] and gives the records. *)
Lemma framed_elim reads payload space trail :
  framed reads payload space trail = true ->
  concat reads = payload ++ space ++ sentinel ++ trail
  /\ is_blank space = true /\ is_blank trail = true
  /\ length trail <= 25 /\ occurs sentinel payload = false.
Proof.
  unfold framed. intros Hf.
  apply andb_true_iff in Hf as [Hf Hocc%negb_true_iff].
  apply andb_true_iff in Hf as [Hf Hlen%bool_decide_eq_true].
  apply andb_true_iff in Hf as [Hf Htrail].
  by apply andb_true_iff in Hf as [Hf%bool_decide_eq_true Hspace].
Qed.

Lemma replies_answer E p params records :
  replies E p params records ->
  exists rest, answer E p params = Some (records, rest).
Proof.
  intros (data & payload & space & trail & Hdata & Hf & Hjson).
  apply framed_elim in Hf as (Hcat & Hs & Ht & Hlen & Hocc).
  destruct (read_until_sentinel_framed payload space trail Hs Ht Hlen Hocc
              (stdout_pending p ++ tool E data) [])
    as (out & rest & Hloop & Hres & _); [done|].
  exists rest. unfold answer. rewrite Hdata. simpl. rewrite Hloop. simpl.
  change 7 with (length sentinel). by rewrite Hres, Hjson.
Qed.

(** C6 (as stated, refuted): the subprocess answers the full query
    of a view over two files with two records, and the query restricted
    to the tag [EXIF:Artist] with the one record that has the tag.  The
    iteration yields two views, the projection one value: not a value
    for every file. *)
Lemma projection_differs_from_iteration :
  exists views values w1 w2,
    MultiFileMetadata_iter sparse_env sample_view idle_world = (Returns views, w1)
    /\ MultiFileMetadata_getitem sparse_env sample_view "EXIF:Artist" idle_world
       = (Returns values, w2)
    /\ map items views = [source_a; source_b]
    /\ values = [PyStr "B"]
    /\ length values <> length views.
Proof.
  eexists _, _, _, _. split; [by vm_compute|]. split; [by vm_compute|].
  split; [by vm_compute|]. split; [done|]. simpl. lia.
Qed.

(** C6 (amended): the projection is computed from the answer to its
    own query, not from the records of the iteration.  When the
    serving subprocess stays alive and replies to the query restricted
    to the tag [key] with [tagged], the field projection yields one
    value for each record of [tagged], in that order: the value of
    [key] in the record, or [None] where the record has no such tag.
    When the subprocess replies to the full query with [records], the
    iteration yields the views of [records], and the values of the
    projection are the values of [key] in these views, place by place,
    exactly when the two answers agree on [key]; they are as many as
    the views when the two answers list as many records. *)
Theorem projection_follows_its_own_answer E v key et w tagged :
  heap w !! exif_tool v = Some et -> session_ok w et = true ->
  (running et = false -> popen_ok E (executable et) = true) ->
  stays_alive E (pid (serving_process w et)) w ->
  replies E (serving_process w et)
    (PStr (String.append "-" key) :: PStr "-r" :: file_paths v) tagged ->
  exists values w2,
    MultiFileMetadata_getitem E v key w = (Returns values, w2)
    /\ values = map (fun r => default PyNone (r !! key)) tagged
    /\ length values = length tagged
    /\ forall records,
         replies E (serving_process w et) (PStr "-r" :: file_paths v) records ->
         exists views w1,
           MultiFileMetadata_iter E v w = (Returns views, w1)
           /\ map items views = records
           /\ (values = map (fun fm => default PyNone (items fm !! key)) views
               <-> map (fun r => default PyNone (r !! key)) tagged
                   = map (fun r => default PyNone (r !! key)) records)
           /\ (length tagged = length records -> length values = length views).
Proof.
  intros H Hok Hpopen Hlive [rest' Htag]%replies_answer.
  destruct (multi_execute_answers E v et _ _ _ w H Hok Hpopen Hlive Htag) as (w2 & H2).
  eexists _, w2. unfold MultiFileMetadata_getitem at 1.
  rewrite (bind_returns _ _ _ _ _ H2). unfold ret.
  split; [done|]. split; [done|]. split; [by rewrite length_map|].
  intros records [rest Hfull]%replies_answer.
  destruct (multi_execute_answers E v et _ _ _ w H Hok Hpopen Hlive Hfull) as (w1 & H1).
  eexists _, w1. unfold MultiFileMetadata_iter.
  rewrite (bind_returns _ _ _ _ _ H1). unfold ret.
  split; [done|].
  assert (map items (map (fun exif_values => FileMetadata_init exif_values (exif_tool v))
                       records) = records) as Hitems.
  { rewrite map_map. simpl. apply map_id. }
  split; [exact Hitems|]. split.
  - rewrite <- (map_map items (fun r : record => default PyNone (r !! key))), Hitems.
    by unfold dict_get.
  - intros Hlen. by rewrite !length_map.
Qed.

Lemma projection_follows_its_own_answer_witness :
  heap idle_world !! 0 = Some idle_session
  /\ session_ok idle_world idle_session = true
  /\ exists values w2,
       MultiFileMetadata_getitem photo_env sample_view "EXIF:Artist" idle_world
       = (Returns values, w2)
       /\ values = [PyNone; PyStr "B"]
       /\ exists views w1,
            MultiFileMetadata_iter photo_env sample_view idle_world = (Returns views, w1)
            /\ map items views = [source_a; source_b]
            /\ values = map (fun fm => default PyNone (items fm !! "EXIF:Artist")) views.
Proof.
  split; [reflexivity|]. split; [reflexivity|].
  destruct (projection_follows_its_own_answer photo_env sample_view "EXIF:Artist"
              idle_session idle_world
              [ {[ "SourceFile" := PyStr "a.jpg" ]};
                {[ "SourceFile" := PyStr "b.png"; "EXIF:Artist" := PyStr "B" ]} ]
              eq_refl eq_refl (fun _ => eq_refl) (fun _ => eq_refl))
    as (values & w2 & Hget & Hvalues & _ & Hiter).
  { eexists _, (lit "artist"), nl, nl. split; [reflexivity|].
    split; vm_compute; reflexivity. }
  exists values, w2. split; [exact Hget|].
  split; [rewrite Hvalues; vm_compute; reflexivity|].
  destruct (Hiter [source_a; source_b]) as (views & w1 & H1 & Hitems & Hsame & _).
  { eexists _, (lit "full"), nl, nl. split; [reflexivity|].
    split; vm_compute; reflexivity. }
  exists views, w1. split; [exact H1|]. split; [exact Hitems|].
  apply Hsame. vm_compute. reflexivity.
Defined.

(** ** Claims on [metadata] *)

Lemma ExifTool_metadata_single E self file_path et p exif_values others rest w :
  isfile E file_path = true ->
  heap w !! self = Some et -> running et = true -> _process et = Some p ->
  exits E (pid p) (trace w) = false ->
  answer E p [file_path] = Some (exif_values :: others, rest) ->
  exists data,
    json_request E p [file_path] = Some data
    /\ ExifTool_metadata E self [file_path] w
       = (Returns (Single (FileMetadata_init exif_values self)),
          store self (mkExifTool (executable et) true (Some (mkPopen (pid p) [] rest)))
            (log (Sent (pid p) data) w)).
Proof.
  intros Hfile H Hr Hp Hlive Hans.
  destruct (execute_json_running E self et p _ _ _ w H Hr Hp Hlive Hans)
    as (data & Hdata & Hq).
  exists data. split; [done|].
  unfold ExifTool_metadata. rewrite Hfile.
  by rewrite (bind_returns _ _ _ _ _ Hq).
Qed.












(** ** Claims on the single-file view *)

(** C3 (the code fails the claim): reading any key of a view as
    [FileMetadata.__init__] makes it raises [AttributeError], whatever
    the record holds: [__getitem__] reads the attribute [_values], which
    nothing assigns, while the record is in the [dict] itself. *)
Theorem FileMetadata_getitem_raises values exif_tool key :
  FileMetadata_getitem key (FileMetadata_init values exif_tool)
  = (Raises (AttributeError "_values"), FileMetadata_init values exif_tool).
Proof. reflexivity. Qed.

(** The same on the view that [metadata] returns for one regular
    file: the record has the [SourceFile] of the file, and reading it
    through the view raises. *)
Example metadata_single_file_SourceFile :
  exists fm w',
    metadata photo_env [PStr "a.jpg"] empty_world = (Returns (Single fm), w')
    /\ items fm !! "SourceFile" = Some (PyStr "a.jpg")
    /\ fst (FileMetadata_getitem "SourceFile" fm) = Raises (AttributeError "_values").
Proof. eexists _, _. split; [by vm_compute|]. split; by vm_compute. Qed.

(** C4 (as stated, refuted): setting a field of a Single-File View
    raises, and the record of the view has changed. *)
Lemma FileMetadata_setitem_changes_record :
  exists fm',
    FileMetadata_setitem None "EXIF:Artist" (PyStr "A") (FileMetadata_init source_a 0)
    = (Raises (RuntimeError "No active exception to reraise"), fm')
    /\ items fm' !! "EXIF:Artist" = Some (PyStr "A")
    /\ items (FileMetadata_init source_a 0) !! "EXIF:Artist" = None.
Proof. eexists. split; [reflexivity|]. split; by vm_compute. Qed.

(** C4 (amended): every mutation operation of either view fails, in
    any state of the view: it raises what a [raise] without expression
    raises where the call is made ([RuntimeError] when no exception is
    being handled), or [KeyError] when the key to delete is absent.
    The three operations of a Multi-File View and [write] of a
    Single-File View change nothing.  Setting a field of a Single-File
    View stores the value in the record before it raises, and deleting
    a field that is present removes it before it raises. *)
Theorem mutation_always_raises handled :
  (forall v key value w,
     MultiFileMetadata_setitem handled v key value w = (Raises (reraise handled), w))
  /\ (forall v key w,
        MultiFileMetadata_delitem handled v key w = (Raises (reraise handled), w))
  /\ (forall v w, MultiFileMetadata_write handled v w = (Raises (reraise handled), w))
  /\ (forall fm, FileMetadata_write handled fm = (Raises (reraise handled), fm))
  /\ (forall fm key value,
        FileMetadata_setitem handled key value fm
        = (Raises (reraise handled),
           mkFileMetadata (<[key := value]> (items fm)) (_edits fm) (_values fm)))
  /\ (forall fm key,
        exists e,
          FileMetadata_delitem handled key fm
          = (Raises e, mkFileMetadata (delete key (items fm)) (_edits fm) (_values fm))
          /\ e = match items fm !! key with
                 | Some _ => reraise handled
                 | None => KeyError key
                 end).
Proof.
  do 5 (split; [reflexivity|]). intros fm key.
  unfold FileMetadata_delitem. destruct (items fm !! key) eqn:Hk.
  - by eexists.
  - exists (KeyError key). split; [|done].
    rewrite delete_id by done. by destruct fm.
Qed.

(** * Further properties *)

(** ** The request of [execute] *)

Lemma split_solid sep (p : bytes) : sep ∉ p -> split sep p = [p].
Proof.
  induction p as [|c p IH]; [done|].
  intros [Hc Hp]%not_elem_of_cons. simpl.
  rewrite bool_decide_false by congruence. by rewrite IH.
Qed.

Lemma split_app_sep sep (p rest : bytes) :
  sep ∉ p -> split sep (p ++ sep :: rest) = p :: split sep rest.
Proof.
  induction p as [|c p IH]; simpl.
  - intros _. by rewrite bool_decide_true.
  - intros [Hc Hp]%not_elem_of_cons.
    rewrite bool_decide_false by congruence. by rewrite IH.
Qed.

Lemma join_cons sep (p : bytes) (parts : list bytes) :
  parts <> [] -> join sep (p :: parts) = p ++ sep ++ join sep parts.
Proof. by destruct parts. Qed.

Lemma split_join sep (parts : list bytes) :
  parts <> [] -> Forall (fun p => sep ∉ p) parts ->
  split sep (join [sep] parts) = parts.
Proof.
  induction parts as [|p parts IH]; [done|].
  intros _ Hall. apply Forall_cons in Hall as [Hp Hparts].
  destruct parts as [|q parts].
  - simpl. by apply split_solid.
  - rewrite join_cons by done.
    change (p ++ [sep] ++ join [sep] (q :: parts))
      with (p ++ sep :: join [sep] (q :: parts)).
    rewrite split_app_sep by done. by rewrite IH.
Qed.

Lemma split_nonempty sep (data : bytes) : split sep data <> [].
Proof.
  destruct data as [|c data]; simpl; [done|].
  destruct (bool_decide (c = sep)); [done|]. by destruct (split sep data).
Qed.

Lemma split_snoc_sep sep (data : bytes) :
  split sep (data ++ [sep]) = split sep data ++ [[]].
Proof.
  induction data as [|c data IH]; simpl.
  - by rewrite bool_decide_true.
  - destruct (bool_decide (c = sep)); rewrite IH; [done|].
    pose proof (split_nonempty sep data). by destruct (split sep data).
Qed.

Lemma join_snoc_app sep (parts : list bytes) (x y : bytes) :
  join sep (parts ++ [x ++ y]) = join sep (parts ++ [x]) ++ y.
Proof.
  induction parts as [|p parts IH]; [done|].
  rewrite <- !app_comm_cons.
  rewrite !join_cons by (by destruct parts).
  by rewrite IH, <- !app_assoc.
Qed.

(** X1: what [execute] writes puts every parameter on a line of its
    own, then the line [-execute]: when no parameter holds a newline,
    cutting the request at the newlines gives back the parameters in
    order, then [-execute], then the empty rest after the last
    newline. *)
Theorem request_lines (params : list bytes) :
  Forall (fun p => x0a ∉ p) params ->
  split x0a (request params) = params ++ [lit "-execute"; []].
Proof.
  intros Hall. unfold request. rewrite join_snoc_app.
  unfold nl. rewrite split_snoc_sep, split_join.
  - by rewrite <- app_assoc.
  - by destruct params.
  - apply Forall_app. split; [done|]. constructor; [|done].
    intros H. vm_compute in H.
    repeat (apply elem_of_cons in H as [H|H]; [discriminate H|]).
    by apply elem_of_nil in H.
Qed.

Lemma request_lines_witness :
  Forall (fun p => x0a ∉ p) [lit "-j"; lit "a b.jpg"]
  /\ split x0a (request [lit "-j"; lit "a b.jpg"])
     = [lit "-j"; lit "a b.jpg"; lit "-execute"; []].
Proof.
  assert (Forall (fun p => x0a ∉ p) [lit "-j"; lit "a b.jpg"]) as Hall.
  { repeat constructor; intros H; vm_compute in H;
      repeat (apply elem_of_cons in H as [H|H]; [discriminate H|]);
      by apply elem_of_nil in H. }
  split; [exact Hall|]. exact (request_lines _ Hall).
Defined.

(** A parameter that holds a newline reaches the subprocess as two
    arguments. *)
Example request_splits_parameter_with_newline :
  split x0a (request [lit "a" ++ nl ++ lit "-delete_original"])
  = [lit "a"; lit "-delete_original"; lit "-execute"; []].
Proof. by vm_compute. Qed.

(** ** Where the read loop stops *)

(** X2: the read loop stops at the first read boundary at which the
    last 32 bytes of the output, stripped, end with the sentinel: the
    output is what [k] reads brought, the other reads stay in the pipe,
    and the test failed at every earlier boundary.  It never returns
    exactly when the test fails at every boundary. *)
Theorem read_until_sentinel_first_boundary (reads : list bytes) (out : bytes) :
  match read_until_sentinel reads out with
  | Some (output, rest) =>
      exists k,
        k <= length reads
        /\ output = out ++ concat (take k reads)
        /\ rest = drop k reads
        /\ loop_test output = true
        /\ forall j, j < k -> loop_test (out ++ concat (take j reads)) = false
  | None =>
      forall k, k <= length reads -> loop_test (out ++ concat (take k reads)) = false
  end.
Proof.
  revert out. induction reads as [|chunk reads IH]; intros out;
    rewrite read_until_sentinel_eq; fold (loop_test out);
    destruct (loop_test out) eqn:Htest.
  - exists 0. simpl. rewrite app_nil_r. repeat split; [lia|done|lia].
  - intros k _. rewrite take_nil. simpl. by rewrite app_nil_r.
  - exists 0. simpl. rewrite app_nil_r. repeat split; [lia|done|lia].
  - specialize (IH (out ++ chunk)).
    destruct (read_until_sentinel reads (out ++ chunk)) as [[output rest]|].
    + destruct IH as (k & Hk & -> & -> & Hout & Hmin).
      exists (S k). simpl. rewrite <- app_assoc.
      split; [lia|]. split; [done|]. split; [done|]. split; [by rewrite app_assoc|].
      intros [|j] Hj; simpl; [by rewrite app_nil_r|].
      rewrite app_assoc. apply Hmin. lia.
    + intros [|k] Hk; simpl; [by rewrite app_nil_r|].
      rewrite app_assoc. apply IH. simpl in Hk. lia.
Qed.

Lemma read_until_sentinel_consumes (reads : list bytes) out output rest :
  read_until_sentinel reads out = Some (output, rest) ->
  exists consumed,
    reads = consumed ++ rest
    /\ output = out ++ concat consumed
    /\ loop_test output = true.
Proof.
  revert out. induction reads as [|chunk reads IH]; intros out;
    rewrite read_until_sentinel_eq; fold (loop_test out);
    destruct (loop_test out) eqn:Htest; try done.
  - intros [= <- <-]. exists []. simpl. by rewrite app_nil_r.
  - intros [= <- <-]. exists []. simpl. by rewrite app_nil_r.
  - intros (consumed & -> & -> & Hout)%IH.
    exists (chunk :: consumed). split; [done|]. split; [|done].
    simpl. by rewrite <- app_assoc.
Qed.

(** ** How much whitespace may follow the sentinel *)

Lemma lstrip_blank_app (k l : bytes) : is_blank k = true -> lstrip (k ++ l) = lstrip l.
Proof.
  induction k as [|c k IH]; simpl; [done|].
  intros [-> Hk]%andb_true_iff. auto.
Qed.

Lemma lstrip_app_not_blank (l k : bytes) :
  is_blank l = false -> lstrip (l ++ k) = lstrip l ++ k.
Proof.
  induction l as [|c l IH]; simpl; [done|].
  destruct (is_space c); simpl; [exact IH|done].
Qed.

Lemma rstrip_blank_app (l k : bytes) : is_blank k = true -> rstrip (l ++ k) = rstrip l.
Proof.
  intros Hk. unfold rstrip. rewrite rev_app_distr.
  by rewrite lstrip_blank_app by (by apply is_blank_rev).
Qed.

Lemma strip_blank_app (l k : bytes) : is_blank k = true -> strip (l ++ k) = strip l.
Proof.
  intros Hk. unfold strip. destruct (is_blank l) eqn:Hl.
  - rewrite !lstrip_blank; [done..|]. by rewrite is_blank_app, Hl, Hk.
  - rewrite lstrip_app_not_blank by done. by apply rstrip_blank_app.
Qed.

Lemma length_lstrip (l : bytes) : length (lstrip l) <= length l.
Proof.
  induction l as [|c l IH]; simpl; [done|].
  destruct (is_space c); simpl; lia.
Qed.

Lemma length_strip (l : bytes) : length (strip l) <= length l.
Proof.
  unfold strip, rstrip. rewrite length_rev.
  etransitivity; [apply length_lstrip|]. rewrite length_rev. apply length_lstrip.
Qed.

Lemma endswith_length (l k : bytes) : endswith l k = true -> length k <= length l.
Proof. intros [pre ->]%endswith_split. rewrite length_app. lia. Qed.

(** X3: the loop looks at the last 32 bytes only, so it recognises a
    sentinel followed by whitespace exactly when that whitespace is at
    most 25 bytes long; after more the test fails and the loop goes on
    reading. *)
Theorem loop_test_trailing_whitespace (l k : bytes) :
  is_blank k = true ->
  loop_test (l ++ sentinel ++ k) = true <-> length k <= 25.
Proof.
  intros Hk. split; [|by apply loop_test_framed].
  intros Htest. destruct (decide (length k <= 25)) as [|Hlong]; [done|exfalso].
  unfold loop_test in Htest. apply endswith_length in Htest.
  change (length sentinel) with 7 in Htest.
  unfold last_bytes in Htest. rewrite app_assoc in Htest.
  rewrite drop_app, strip_blank_app in Htest.
  2:{ rewrite <- (take_drop (length ((l ++ sentinel) ++ k) - 32 - length (l ++ sentinel)) k),
        is_blank_app in Hk.
      by apply andb_true_iff in Hk as [_ ?]. }
  remember (length ((l ++ sentinel) ++ k) - 32) as n eqn:Hn.
  pose proof (length_strip (drop n (l ++ sentinel))) as Hle.
  rewrite length_drop in Hle. repeat rewrite length_app in Hn.
  rewrite length_app in Hle.
  change (length sentinel) with 7 in Hn, Hle. lia.
Qed.

Lemma loop_test_trailing_whitespace_witness :
  is_blank (replicate 25 " "%byte) = true
  /\ loop_test (lit "[]" ++ sentinel ++ replicate 25 " "%byte) = true.
Proof.
  split; [reflexivity|].
  apply (loop_test_trailing_whitespace (lit "[]") (replicate 25 " "%byte) eq_refl).
  simpl. lia.
Defined.

(** ** What [execute] returns, whatever the subprocess writes *)

Lemma loop_test_strip output :
  loop_test output = true ->
  strip output = drop_last (length sentinel) (strip output) ++ sentinel.
Proof.
  intros (pre & k & -> & Hk)%loop_test_split.
  rewrite strip_framed by done. by rewrite drop_last_app.
Qed.

(** X4: whenever [execute] returns on a running session, the reads it
    took from the pipe, joined and stripped, are the returned bytes
    followed by the sentinel; the reads it did not take are still in the
    pipe, the session runs on with the same process, and the one effect
    is the request sent. *)
Theorem execute_returns_output_without_sentinel E self et p params r w w' :
  heap w !! self = Some et -> running et = true -> _process et = Some p ->
  execute E self params w = (Returns r, w') ->
  exists consumed rest,
    stdout_pending p ++ tool E (stdin_buffer p ++ request params) = consumed ++ rest
    /\ strip (concat consumed) = r ++ sentinel
    /\ heap w' !! self
       = Some (mkExifTool (executable et) true (Some (mkPopen (pid p) [] rest)))
    /\ trace w' = trace w ++ [Sent (pid p) (stdin_buffer p ++ request params)].
Proof.
  intros H Hr Hp. destruct (exits E (pid p) (trace w)) eqn:Hlive.
  { by rewrite (execute_broken E self et p params w H Hr Hp Hlive). }
  rewrite (execute_running E self et p params w H Hr Hp Hlive). cbv zeta.
  destruct (read_until_sentinel _ _) as [[output rest]|] eqn:Hloop; [|done].
  intros [= <- <-].
  apply read_until_sentinel_consumes in Hloop as (consumed & Hreads & -> & Htest).
  exists consumed, rest. split; [done|]. split; [|split; [heap_tac|done]].
  simpl. by apply loop_test_strip.
Qed.

Lemma execute_returns_output_without_sentinel_witness :
  exists consumed rest,
    stdout_pending (mkPopen 0 [] [])
      ++ tool (sample_env sample_reads []) ([] ++ request [lit "-ver"])
    = consumed ++ rest
    /\ strip (concat consumed)
       = drop_last 7 (strip (concat sample_reads)) ++ sentinel.
Proof.
  destruct (execute_returns_output_without_sentinel
              (sample_env sample_reads []) 0 busy_session (mkPopen 0 [] [])
              [lit "-ver"] (drop_last 7 (strip (concat sample_reads)))
              busy_world
              (snd (execute (sample_env sample_reads []) 0 [lit "-ver"] busy_world))
              eq_refl eq_refl eq_refl)
    as (consumed & rest & H1 & H2 & _).
  { vm_compute. reflexivity. }
  exists consumed, rest. split; [exact H1|exact H2].
Defined.

(** ** Calls of [execute] one after the other *)

Lemma occurs_elim (sub l : bytes) :
  occurs sub l = true -> exists pre post, l = pre ++ sub ++ post.
Proof.
  induction l as [|c l IH]; simpl.
  - intros ->%bool_decide_eq_true. by exists [], [].
  - intros [Hhere%bool_decide_eq_true|Hlater]%orb_true_iff.
    + exists [], (drop (length sub) (c :: l)). simpl.
      rewrite <- Hhere at 1. by rewrite take_drop.
    + destruct (IH Hlater) as (pre & post & ->). by exists (c :: pre), post.
Qed.

Lemma occurs_blank_app (k payload : bytes) :
  is_blank k = true -> occurs sentinel payload = false ->
  occurs sentinel (k ++ payload) = false.
Proof.
  intros Hk Hocc. destruct (occurs sentinel (k ++ payload)) eqn:Hin; [|done].
  apply occurs_elim in Hin as (pre & post & Heq).
  apply app_eq_inv in Heq as [(j & -> & Hj)|(j & -> & Hj)].
  - destruct j as [|c j].
    + change ([] ++ payload) with payload in Hj. subst payload.
      pose proof (occurs_intro sentinel [] post) as Hin.
      change ([] ++ sentinel ++ post) with (sentinel ++ post) in Hin. congruence.
    + apply sentinel_app_cons in Hj as [-> _].
      rewrite is_blank_app in Hk. apply andb_true_iff in Hk as [_ Hk].
      by simpl in Hk.
  - subst payload. by rewrite occurs_intro in Hocc.
Qed.

(** From a clean pipe a framed answer gives the stripped payload and
    leaves the pipe clean. *)
Lemma execute_clean_step E self et p params payload space trail w :
  heap w !! self = Some et -> running et = true -> _process et = Some p ->
  exits E (pid p) (trace w) = false ->
  pipe_clean p = true ->
  concat (tool E (request params)) = payload ++ space ++ sentinel ++ trail ->
  is_blank space = true -> is_blank trail = true -> length trail <= 25 ->
  occurs sentinel payload = false ->
  exists rest,
    execute E self params w
    = (Returns (lstrip (payload ++ space)),
       store self (mkExifTool (executable et) true (Some (mkPopen (pid p) [] rest)))
         (log (Sent (pid p) (request params)) w))
    /\ pipe_clean (mkPopen (pid p) [] rest) = true.
Proof.
  intros H Hr Hp Hlive [Hbuf%bool_decide_eq_true Hpend]%andb_true_iff Hans Hs Ht Hlen Hocc.
  rewrite (execute_running E self et p params w H Hr Hp Hlive). cbv zeta.
  rewrite Hbuf. simpl app.
  destruct (read_until_sentinel_framed (concat (stdout_pending p) ++ payload) space trail
              Hs Ht Hlen (occurs_blank_app _ _ Hpend Hocc)
              (stdout_pending p ++ tool E (request params)) [])
    as (out & rest & -> & Hres & Hrest).
  { simpl. by rewrite concat_app, Hans, <- app_assoc. }
  exists rest. rewrite Hres, <- app_assoc, lstrip_blank_app by done.
  split; [done|]. unfold pipe_clean. simpl. by rewrite Hrest.
Qed.

(** X5: on a running session with a clean pipe whose subprocess stays
    alive, any number of calls of
    [execute] one after the other, each answered by a payload,
    whitespace, the sentinel and at most 25 bytes of whitespace, return
    in order the payloads with the whitespace before the sentinel and
    without leading whitespace, however the answers are cut into reads:
    what one call leaves unread does not reach into the result of the
    next.  The session sends the requests in order and nothing else. *)
Theorem execute_each_framed E self batches answers :
  Forall2 (fun params '(payload, space, trail) =>
             framed (tool E (request params)) payload space trail = true)
          batches answers ->
  forall et p w,
    heap w !! self = Some et -> running et = true -> _process et = Some p ->
    stays_alive E (pid p) w ->
    pipe_clean p = true ->
    exists w' rest,
      execute_each E self batches w
      = (Returns (map (fun '(payload, space, _) => lstrip (payload ++ space)) answers), w')
      /\ heap w' !! self
         = Some (mkExifTool (executable et) true (Some (mkPopen (pid p) [] rest)))
      /\ trace w' = trace w ++ map (fun params => Sent (pid p) (request params)) batches.
Proof.
  induction 1 as [|params [[payload space] trail] batches answers Hans _ IH];
    intros et p w H Hr Hp Hlive Hclean.
  - exists w, (stdout_pending p). simpl. rewrite app_nil_r. split; [done|].
    split; [|done]. rewrite H. f_equal.
    apply andb_true_iff in Hclean as [Hbuf%bool_decide_eq_true _].
    destruct et as [exe run proc], p as [n buf pend]. simpl in *. by subst.
  - apply framed_elim in Hans as (Hans & Hspace & Htrail & Hlen & Hocc).
    destruct (execute_clean_step E self et p params payload space trail w
                H Hr Hp (stays_alive_now _ _ _ Hlive) Hclean Hans Hspace Htrail Hlen Hocc)
      as (rest & Hrun & Hclean').
    destruct (IH (mkExifTool (executable et) true (Some (mkPopen (pid p) [] rest)))
                (mkPopen (pid p) [] rest)
                (store self
                   (mkExifTool (executable et) true (Some (mkPopen (pid p) [] rest)))
                   (log (Sent (pid p) (request params)) w)))
      as (w' & rest' & Hall & Hheap & Htrace); [heap_tac|done|done|alive_tac|done|].
    exists w', rest'. simpl.
    rewrite (bind_returns _ _ _ _ _ Hrun), (bind_returns _ _ _ _ _ Hall).
    split; [done|]. split; [exact Hheap|].
    rewrite Htrace. simpl. by rewrite <- app_assoc.
Qed.

Lemma execute_each_framed_witness :
  exists w' rest,
    execute_each (sample_env sample_reads []) 0 [[lit "-ver"]; [lit "a.jpg"]] busy_world
    = (Returns [lit "[{}," ++ nl ++ lit "{}]" ++ nl;
                lit "[{}," ++ nl ++ lit "{}]" ++ nl], w')
    /\ heap w' !! 0 = Some (mkExifTool "exiftool" true (Some (mkPopen 0 [] rest)))
    /\ trace w' = trace busy_world
                  ++ [Sent 0 (request [lit "-ver"]); Sent 0 (request [lit "a.jpg"])].
Proof.
  refine (execute_each_framed (sample_env sample_reads []) 0
            [[lit "-ver"]; [lit "a.jpg"]]
            [(lit "[{}," ++ nl ++ lit "{}]", nl, nl);
             (lit "[{}," ++ nl ++ lit "{}]", nl, nl)]
            _ busy_session (mkPopen 0 [] []) busy_world eq_refl eq_refl eq_refl
            (fun _ => eq_refl) eq_refl).
  apply List.Forall2_cons; [reflexivity|].
  apply List.Forall2_cons; [reflexivity|]. apply List.Forall2_nil.
Defined.

(** ** [execute_json]: parameters and errors *)


(** X7: when the bytes that [execute] returns do not decode,
    [execute_json] raises the decoding error after the response has been
    read: the session runs on with the same process, and only the reads
    behind the sentinel are left in the pipe.  The subprocess has not
    exited, or [execute] would not have returned. *)
Theorem execute_json_malformed_response E self et p params encoded output rest w :
  heap w !! self = Some et -> running et = true -> _process et = Some p ->
  exits E (pid p) (trace w) = false ->
  mapM (fsencode E) params = Some encoded ->
  read_until_sentinel
    (stdout_pending p ++ tool E (stdin_buffer p ++ request (lit "-j" :: encoded))) []
  = Some (output, rest) ->
  json_loads E (drop_last (length sentinel) (strip output)) = None ->
  execute_json E self params w
  = (Raises MalformedResponse,
     store self (mkExifTool (executable et) true (Some (mkPopen (pid p) [] rest)))
       (log (Sent (pid p) (stdin_buffer p ++ request (lit "-j" :: encoded))) w)).
Proof.
  intros H Hr Hp Hlive Henc Hloop Hjson. unfold execute_json. rewrite Henc.
  unfold bind. rewrite (execute_running E self et p _ w H Hr Hp Hlive). cbv zeta.
  by rewrite Hloop, Hjson.
Qed.

Lemma execute_json_malformed_response_witness :
  execute_json photo_env 0 [PStr "-ver"]
    (mkWorld [mkExifTool "exiftool" true (Some (mkPopen 0 [] [lit "12.40"; nl ++ sentinel ++ nl]))]
       [] 1)
  = (Raises MalformedResponse,
     store 0 (mkExifTool "exiftool" true (Some (mkPopen 0 [] [lit "full" ++ nl; sentinel ++ nl])))
       (log (Sent 0 ([] ++ request [lit "-j"; lit "-ver"]))
          (mkWorld [mkExifTool "exiftool" true
                      (Some (mkPopen 0 [] [lit "12.40"; nl ++ sentinel ++ nl]))] [] 1))).
Proof.
  apply (execute_json_malformed_response photo_env 0
           (mkExifTool "exiftool" true (Some (mkPopen 0 [] [lit "12.40"; nl ++ sentinel ++ nl])))
           (mkPopen 0 [] [lit "12.40"; nl ++ sentinel ++ nl])
           [PStr "-ver"] [lit "-ver"] (lit "12.40" ++ nl ++ sentinel ++ nl)
           [lit "full" ++ nl; sentinel ++ nl]);
    reflexivity.
Defined.

(** ** [ExifTool.metadata]: the edges of the single-file branch *)

(** X8: when the subprocess, which has not exited, answers the query
    for one regular file with an empty list of records, [metadata]
    raises [StopIteration]: there is no first record to wrap.  The
    request has been sent and the session runs on. *)
Theorem metadata_single_file_no_record E self file_path et p rest w :
  isfile E file_path = true ->
  heap w !! self = Some et -> running et = true -> _process et = Some p ->
  exits E (pid p) (trace w) = false ->
  answer E p [file_path] = Some ([], rest) ->
  exists data,
    json_request E p [file_path] = Some data
    /\ ExifTool_metadata E self [file_path] w
       = (Raises StopIteration,
          store self (mkExifTool (executable et) true (Some (mkPopen (pid p) [] rest)))
            (log (Sent (pid p) data) w)).
Proof.
  intros Hfile H Hr Hp Hlive Hans.
  destruct (execute_json_running E self et p _ _ _ w H Hr Hp Hlive Hans)
    as (data & Hdata & Hq).
  exists data. split; [done|].
  unfold ExifTool_metadata. rewrite Hfile.
  by rewrite (bind_returns _ _ _ _ _ Hq).
Qed.

Lemma metadata_single_file_no_record_witness :
  exists data,
    json_request (sample_env sample_reads []) (mkPopen 0 [] []) [PStr "a.jpg"] = Some data
    /\ ExifTool_metadata (sample_env sample_reads []) 0 [PStr "a.jpg"] busy_world
       = (Raises StopIteration,
          store 0 (mkExifTool "exiftool" true (Some (mkPopen 0 [] [])))
            (log (Sent 0 data) busy_world)).
Proof.
  apply (metadata_single_file_no_record (sample_env sample_reads []) 0 (PStr "a.jpg")
           busy_session (mkPopen 0 [] []) [] busy_world);
    reflexivity.
Defined.

(** X9: on a session that is not running, [metadata] with one path
    that names a regular file raises a [ValueError] and leaves the store
    as it was; it is the error of [execute], "ExifTool instance not
    running.", whenever the path can be encoded.  (With any other
    arguments the same session returns a view.) *)
Theorem metadata_single_file_not_running E self file_path et w :
  isfile E file_path = true ->
  heap w !! self = Some et -> running et = false ->
  exists e,
    ExifTool_metadata E self [file_path] w = (Raises e, w)
    /\ is_ValueError e = true
    /\ (is_Some (fsencode E file_path) -> e = ValueError not_running).
Proof.
  intros Hfile H Hr. unfold ExifTool_metadata. rewrite Hfile.
  destruct (mapM (fsencode E) [file_path]) as [encoded|] eqn:Henc.
  - exists (ValueError not_running).
    erewrite bind_raises by (by eapply execute_json_stopped). done.
  - exists UnicodeEncodeError.
    erewrite bind_raises by (by apply execute_json_unencodable).
    split; [done|]. split; [done|]. intros [raw Hraw].
    simpl in Henc. by rewrite Hraw in Henc.
Qed.

Lemma metadata_single_file_not_running_witness :
  ExifTool_metadata photo_env 0 [PStr "a.jpg"] idle_world
  = (Raises (ValueError not_running), idle_world).
Proof.
  destruct (metadata_single_file_not_running photo_env 0 (PStr "a.jpg") idle_session
              idle_world eq_refl eq_refl eq_refl) as (e & Hrun & _ & He).
  rewrite Hrun. rewrite (He (ex_intro _ (lit "a.jpg") eq_refl)). reflexivity.
Defined.

(** ** The module-level [metadata] on one regular file *)

(** X10: the module-level [metadata] with one path that names a
    regular file, when the executable can be launched and the new
    subprocess stays alive and answers with at least one record, returns
    a Single-File View of the first record.  It makes one session,
    launches one process, sends the query and then the closing
    directive, waits for the process, and leaves the session stopped. *)
Theorem module_metadata_single_file E file_path exif_values others rest w :
  popen_ok E executable_default = true ->
  isfile E file_path = true ->
  stays_alive E (next_pid w) w ->
  answer E (mkPopen (next_pid w) [] []) [file_path] = Some (exif_values :: others, rest) ->
  exists data w',
    json_request E (mkPopen (next_pid w) [] []) [file_path] = Some data
    /\ metadata E [file_path] w
       = (Returns (Single (FileMetadata_init exif_values (length (heap w)))), w')
    /\ heap w' = heap w ++ [mkExifTool executable_default false None]
    /\ trace w' = trace w ++ [Spawned (next_pid w) (argv_of executable_default);
                              Sent (next_pid w) data;
                              Sent (next_pid w) stay_open_false;
                              Waited (next_pid w)]
    /\ next_pid w' = S (next_pid w).
Proof.
  intros Hpopen Hfile Hlive Hans.
  set (self := length (heap w)).
  set (idle := mkExifTool executable_default false None).
  set (w1 := store self (mkExifTool executable_default true
                           (Some (mkPopen (next_pid w) [] [])))
               (spawn (argv_of executable_default) (alloc idle w))).
  destruct (ExifTool_metadata_single E self file_path
              (mkExifTool executable_default true (Some (mkPopen (next_pid w) [] [])))
              (mkPopen (next_pid w) [] []) exif_values others rest w1)
    as (data & Hdata & Hq); [done|subst w1; heap_tac|done|done|subst w1; alive_tac|done|].
  exists data. eexists. split; [done|]. split.
  - unfold metadata, ExifTool_init.
    erewrite bind_returns by reflexivity. fold self idle.
    unfold with_, __enter__.
    erewrite bind_returns.
    2:{ erewrite bind_returns; [reflexivity|].
        eapply start_stopped; [apply heap_alloc|done..]. }
    match goal with
    | |- context [ExifTool_metadata E self [file_path] ?x] =>
        change x with w1
    end.
    rewrite Hq. unfold __exit__.
    erewrite terminate_running; [|heap_tac|done|done|subst w1; alive_tac].
    cbn [executable running _process pid stdin_buffer app]. reflexivity.
  - subst w1 self idle. simpl.
    rewrite !list_insert_insert_eq.
    split; [|split; [by rewrite <- !app_assoc|done]].
    rewrite insert_app_r_alt by done. by rewrite Nat.sub_diag.
Qed.

Lemma module_metadata_single_file_witness :
  exists data w',
    json_request photo_env (mkPopen 0 [] []) [PStr "a.jpg"] = Some data
    /\ metadata photo_env [PStr "a.jpg"] empty_world
       = (Returns (Single (FileMetadata_init source_a 0)), w')
    /\ heap w' = [idle_session]
    /\ trace w' = [Spawned 0 (argv_of executable_default); Sent 0 data;
                   Sent 0 stay_open_false; Waited 0]
    /\ next_pid w' = 1.
Proof.
  apply (module_metadata_single_file photo_env (PStr "a.jpg") source_a [source_b] []
           empty_world eq_refl eq_refl (fun _ => eq_refl) eq_refl).
Defined.

(** X11: when the executable cannot be launched, the module-level
    [metadata] raises the error of [Popen] whatever the paths are: the
    new session object stays stopped, and nothing is launched, sent or
    waited for. *)
Theorem module_metadata_popen_fails E file_paths w :
  popen_ok E executable_default = false ->
  metadata E file_paths w
  = (Raises OSError, alloc (mkExifTool executable_default false None) w).
Proof.
  intros Hpopen. unfold metadata, ExifTool_init.
  erewrite bind_returns by reflexivity.
  unfold with_, __enter__.
  erewrite bind_raises; [done|].
  erewrite bind_raises; [done|].
  eapply start_popen_fails; [apply heap_alloc|done..].
Qed.

Lemma module_metadata_popen_fails_witness :
  metadata (mkEnv (fun s => Some (lit s)) (fun _ => None) (fun _ => true)
              (fun _ => []) (fun _ => false) (fun _ _ => false))
    [PStr "a.jpg"] empty_world
  = (Raises OSError, alloc idle_session empty_world).
Proof.
  apply (module_metadata_popen_fails
           (mkEnv (fun s => Some (lit s)) (fun _ => None) (fun _ => true)
              (fun _ => []) (fun _ => false) (fun _ _ => false))
           [PStr "a.jpg"] empty_world eq_refl).
Defined.

(** ** One instance does not touch another *)

Section Confined.
Context (E : Env).

Lemma confined_ret {A} self (a : A) : confined self (ret a).
Proof. by intros w r w' [= <- <-]. Qed.

Lemma confined_raise {A} self e : confined self (@raise A e).
Proof. by intros w r w' [= <- <-]. Qed.

Lemma confined_hang {A} self : confined self (fun w => (@Hangs A, w)).
Proof. by intros w r w' [= <- <-]. Qed.

Lemma confined_bind {A B} self (m : M A) (k : A -> M B) :
  confined self m -> (forall a, confined self (k a)) -> confined self (bind m k).
Proof.
  intros Hm Hk w r w'. unfold bind.
  destruct (m w) as [[a|e|] w0] eqn:Hrun.
  - intros Hrun'. destruct (Hm _ _ _ Hrun) as [H1 H2].
    destruct (Hk a _ _ _ Hrun') as [H3 H4]. split; [naive_solver|auto].
  - intros [= <- <-]. by eapply Hm.
  - intros [= <- <-]. by eapply Hm.
Qed.

Lemma confined_deref self other : confined self (deref other).
Proof.
  intros w r w'. unfold deref. by destruct (heap w !! other); intros [= <- <-].
Qed.

Lemma confined_assign self et : confined self (assign self et).
Proof.
  intros w r w' [= <- <-]. split.
  - intros other et' Hne H. by rewrite heap_store_ne.
  - intros [et0 H]. eexists. by eapply heap_store.
Qed.

Lemma confined_emit self ev : confined self (emit ev).
Proof. by intros w r w' [= <- <-]. Qed.

Lemma confined_has_exited self p : confined self (has_exited E p).
Proof. by intros w r w' [= <- <-]. Qed.

Lemma confined_popen self argv : confined self (popen E argv).
Proof.
  intros w r w'. unfold popen. by destruct (popen_ok E _); intros [= <- <-].
Qed.

(** Applies the closure lemmas along the structure of a method. *)
Ltac confined_tac :=
  repeat first
    [ apply confined_ret | apply confined_raise | apply confined_hang
    | apply confined_deref | apply confined_assign | apply confined_emit
    | apply confined_popen | apply confined_has_exited
    | apply confined_bind; [|intros ?]
    | match goal with
      | |- confined _ (if ?c then _ else _) => destruct c
      | |- confined _ (match ?o with Some _ => _ | None => _ end) => destruct o
      | |- confined _ (let (_, _) := ?p in _) => destruct p
      end ].

Lemma set_running_confined self v : confined self (set_running self v).
Proof. unfold set_running. confined_tac. Qed.

Lemma set_process_confined self v : confined self (set_process self v).
Proof. unfold set_process. confined_tac. Qed.

Lemma get_process_confined self : confined self (get_process self).
Proof. unfold get_process. confined_tac. Qed.

Lemma start_confined self : confined self (start E self).
Proof.
  unfold start. confined_tac.
Qed.

Lemma terminate_confined self : confined self (terminate E self).
Proof.
  unfold terminate. confined_tac.
Qed.

Lemma execute_confined self params : confined self (execute E self params).
Proof.
  unfold execute. confined_tac.
Qed.

Lemma execute_json_confined self params : confined self (execute_json E self params).
Proof.
  unfold execute_json. destruct (mapM (fsencode E) params); [|apply confined_raise].
  apply confined_bind; [apply execute_confined|].
  intros raw. destruct (json_loads E raw); [apply confined_ret|apply confined_raise].
Qed.

Lemma with_confined {A} self (body : nat -> M A) :
  confined self (body self) -> confined self (with_ E self body).
Proof.
  intros Hbody w r w'. unfold with_, __enter__, bind, ret.
  destruct (start E self w) as [[[]|e|] w1] eqn:Hstart;
    destruct (start_confined self _ _ _ Hstart) as [S1 S2];
    [|by intros [= <- <-]..].
  destruct (body self w1) as [r0 w0] eqn:Hrun.
  destruct (Hbody _ _ _ Hrun) as [H1 H2]. unfold __exit__.
  destruct (terminate E self w0) as [r1 w2] eqn:Hterm.
  destruct (terminate_confined self _ _ _ Hterm) as [H3 H4].
  destruct r0 as [a|e|]; [| |intros [= <- <-]; split; [naive_solver|auto]];
    destruct r1 as [[]|e1|]; intros [= <- <-]; (split; [naive_solver|auto]).
Qed.

Lemma multi_execute_confined v params :
  confined (exif_tool v) (MultiFileMetadata_execute E v params).
Proof.
  unfold MultiFileMetadata_execute.
  apply confined_bind; [apply confined_deref|]. intros et.
  destruct (running et); [apply execute_json_confined|].
  apply with_confined. apply execute_json_confined.
Qed.

Lemma ExifTool_metadata_confined self file_paths :
  confined self (ExifTool_metadata E self file_paths).
Proof.
  unfold ExifTool_metadata.
  destruct file_paths as [|file_path [|second rest]]; [apply confined_ret| |apply confined_ret].
  destruct (isfile E file_path); [|apply confined_ret].
  apply confined_bind; [apply execute_json_confined|].
  intros [|exif_values others]; [apply confined_raise|apply confined_ret].
Qed.

End Confined.

(** X12: one instance does not touch another.  Whatever its outcome,
    a method of an [ExifTool] instance or of a view bound to it leaves
    every other instance of the store exactly as it was, and removes no
    instance; the module-level [metadata] makes an instance of its own
    and leaves every instance that existed as it was. *)
Theorem instances_are_independent E :
  (forall self, confined self (start E self))
  /\ (forall self, confined self (terminate E self))
  /\ (forall self params, confined self (execute E self params))
  /\ (forall self params, confined self (execute_json E self params))
  /\ (forall self file_paths, confined self (ExifTool_metadata E self file_paths))
  /\ (forall v, confined (exif_tool v) (MultiFileMetadata_iter E v))
  /\ (forall v key, confined (exif_tool v) (MultiFileMetadata_getitem E v key))
  /\ (forall file_paths w r w' other et,
        metadata E file_paths w = (r, w') ->
        heap w !! other = Some et -> heap w' !! other = Some et).
Proof.
  split; [exact (start_confined E)|].
  split; [exact (terminate_confined E)|].
  split; [exact (execute_confined E)|].
  split; [exact (execute_json_confined E)|].
  split; [exact (ExifTool_metadata_confined E)|].
  split; [|split].
  - intros v. apply confined_bind; [apply multi_execute_confined|].
    intros records. apply confined_ret.
  - intros v key. apply confined_bind; [apply multi_execute_confined|].
    intros records. apply confined_ret.
  - intros file_paths w r w' other et. unfold metadata, ExifTool_init.
    erewrite bind_returns by reflexivity.
    intros Hrun H.
    destruct (with_confined E (length (heap w)) _
                (ExifTool_metadata_confined E _ file_paths) _ _ _ Hrun) as [Hothers _].
    apply Hothers.
    + apply lookup_lt_Some in H. lia.
    + simpl. by apply lookup_app_l_Some.
Qed.

Lemma instances_are_independent_witness :
  heap (snd (terminate photo_env 0
               (mkWorld [busy_session; mkExifTool "exiftool" true (Some (mkPopen 1 [] []))]
                  [] 2))) !! 1
  = Some (mkExifTool "exiftool" true (Some (mkPopen 1 [] []))).
Proof.
  refine (proj1 (proj1 (proj2 (instances_are_independent photo_env)) 0
                   (mkWorld [busy_session; mkExifTool "exiftool" true (Some (mkPopen 1 [] []))]
                      [] 2) _ _ (surjective_pairing _))
            1 _ _ eq_refl).
  discriminate.
Defined.

(** ** The context manager *)

(** X13: what the [with] statement on a session leaves behind.  For a
    session in its invariant state and a body that keeps the invariant
    and touches no other instance, take a [with] block that ends, by
    return or by exception.  Unless the launch fails, which raises the
    error of [Popen] and runs nothing, the body runs once after [start]
    and [terminate] runs once after the body.  When the subprocess of
    the session has not exited by then, [terminate] returns, the
    outcome of the block is the outcome of the body, and the session is
    stopped, without a process handle.  When it has exited, [terminate]
    raises [BrokenPipeError], which becomes the outcome of the block in
    place of the outcome of the body, and the session is left running
    on its handle.  So the session is stopped unless the block ends
    with [BrokenPipeError]. *)
Theorem with_leaves_session_terminated {A} E self et (body : nat -> M A) r w w' :
  world_ok w -> heap w !! self = Some et ->
  preserves (body self) -> confined self (body self) ->
  with_ E self body w = (r, w') -> r <> Hangs ->
  (r <> Raises BrokenPipeError ->
   exists et', heap w' !! self = Some et' /\ running et' = false /\ _process et' = None)
  /\ ((r = Raises OSError /\ w' = w /\ start E self w = (Raises OSError, w))
      \/ (exists w1 r0 w0 et0,
            start E self w = (Returns tt, w1)
            /\ body self w1 = (r0, w0)
            /\ heap w0 !! self = Some et0
            /\ ((terminate E self w0 = (Returns tt, w')
                 /\ r = r0
                 /\ heap w' !! self = Some (mkExifTool (executable et0) false None)
                 /\ (forall p, _process et0 = Some p ->
                                exits E (pid p) (trace w0) = false))
                \/ (exists p,
                      _process et0 = Some p
                      /\ exits E (pid p) (trace w0) = true
                      /\ terminate E self w0 = (Raises BrokenPipeError, w')
                      /\ r = Raises BrokenPipeError
                      /\ heap w' !! self
                         = Some (mkExifTool (executable et0) true
                                   (Some (mkPopen (pid p)
                                            (stdin_buffer p ++ stay_open_false)
                                            (stdout_pending p))))
                      /\ trace w' = trace w0)))).
Proof.
  intros Hok H Hbody Hconf. unfold with_, __enter__, bind, ret.
  destruct (start E self w) as [[[]|e|] w1] eqn:Hstart.
  - pose proof (start_preserves E self _ _ _ Hok Hstart) as Hok1.
    destruct (start_confined E self _ _ _ Hstart) as [_ Hself1].
    destruct (body self w1) as [r0 w0] eqn:Hrun.
    pose proof (Hbody _ _ _ Hok1 Hrun) as Hok0.
    destruct (Hconf _ _ _ Hrun) as [_ Hself0].
    destruct (Hself0 (Hself1 (ex_intro _ et H))) as [et0 H0].
    pose proof (world_ok_lookup _ _ _ Hok0 H0) as Het0.
    unfold __exit__.
    assert (forall p, _process et0 = Some p -> exits E (pid p) (trace w0) = false ->
              exists w2,
                terminate E self w0 = (Returns tt, w2)
                /\ heap w2 !! self = Some (mkExifTool (executable et0) false None)) as Hlive.
    { intros p Hp Hlive.
      destruct (terminate_returns E self et0 w0 H0 Het0) as (w2 & Hterm & H2 & _);
        [|by exists w2].
      intros p' Hp'. rewrite Hp in Hp'. by injection Hp' as <-. }
    destruct (_process et0) as [p|] eqn:Hp.
    + assert (running et0 = true) as Hr0.
      { unfold session_ok in Het0. rewrite Hp in Het0.
        by apply andb_true_iff in Het0 as [? _]. }
      destruct (exits E (pid p) (trace w0)) eqn:Hgone.
      * rewrite (terminate_broken E self et0 p w0 H0 Hr0 Hp Hgone).
        destruct r0 as [a|e|]; intros [= <- <-] Hne; [| |done];
          (split; [done|right]; exists w1; eexists _, w0, et0;
           split; [done|]; split; [done|]; split; [done|]; right; exists p;
           split; [done|]; split; [done|];
           split; [by apply terminate_broken|]; split; [done|];
           split; [heap_tac|done]).
      * destruct (Hlive p eq_refl Hgone) as (w2 & Hterm & H2). rewrite Hterm.
        destruct r0 as [a|e|]; intros [= <- <-] Hne; [| |done];
          (split; [intros _; by eexists|right]; exists w1; eexists _, w0, et0;
           split; [done|]; split; [done|]; split; [done|]; left;
           split; [done|]; split; [done|]; split; [done|];
           intros p' Hp'; by simplify_eq).
    + assert (running et0 = false) as Hr0.
      { unfold session_ok in Het0. rewrite Hp in Het0. by apply negb_true_iff. }
      rewrite (terminate_stopped E self et0 w0 H0 Hr0).
      assert (et0 = mkExifTool (executable et0) false None) as Hidle.
      { destruct et0 as [exe run proc]. simpl in *. by subst. }
      destruct r0 as [a|e|]; intros [= <- <-] Hne; [| |done];
        (split; [intros _; by exists et0|right]; exists w1; eexists _, w0, et0;
         split; [done|]; split; [done|]; split; [done|]; left;
         split; [by eapply terminate_stopped|]; split; [done|];
         split; [by rewrite <- Hidle|intros p'; by rewrite Hp]).
  - intros [= <- <-] _.
    destruct (running et) eqn:Hr.
    { rewrite (start_running E self et w H Hr) in Hstart. done. }
    destruct (popen_ok E (executable et)) eqn:Hpopen.
    { rewrite (start_stopped E self et w H Hr Hpopen) in Hstart. done. }
    rewrite (start_popen_fails E self et w H Hr Hpopen) in Hstart.
    injection Hstart as <- <-. split; [|by left].
    intros _. exists et. split; [done|]. split; [done|].
    by rewrite (session_ok_stopped _ _ (world_ok_lookup _ _ _ Hok H) Hr).
  - by intros [= <- <-].
Qed.

Lemma with_leaves_session_terminated_witness :
  exists et',
    heap (snd (with_ photo_env 0 (fun et => execute_json photo_env et [PStr "-ver"])
                 busy_world)) !! 0 = Some et'
    /\ running et' = false /\ _process et' = None.
Proof.
  refine (proj1 (with_leaves_session_terminated photo_env 0 busy_session
                   (fun et => execute_json photo_env et [PStr "-ver"])
                   _ busy_world _ _ eq_refl
                   (execute_json_preserves photo_env 0 _)
                   (execute_json_confined photo_env 0 _)
                   (surjective_pairing _) _) _).
  - repeat constructor.
  - vm_compute. discriminate.
  - vm_compute. discriminate.
Defined.

(** A body that tells the subprocess to exit: the request of the body
    is answered, the body returns, and then [terminate] finds the pipe
    broken.  The block raises [BrokenPipeError] and the session, stopped
    before the block, is left running. *)
Example with_body_closes_subprocess :
  exists w',
    with_ quitting_env 0
      (fun et => execute quitting_env et [lit "-stay_open"; lit "False"]) idle_world
    = (Raises BrokenPipeError, w')
    /\ running <$> heap w' !! 0 = Some true
    /\ trace w' = [Spawned 0 (argv_of "exiftool");
                   Sent 0 (request [lit "-stay_open"; lit "False"])].
Proof. eexists. split; [by vm_compute|]. split; by vm_compute. Qed.

(** ** Iterating a view again *)

(** X14: a Multi-File View keeps no result: on a stopped session whose
    executable can be launched and whose subprocess answers the query,
    iterating the view twice yields the same views both times, and each
    iteration launches a process of its own, sends it the same query
    and the closing directive, and waits for it.  Neither of the two
    processes exits on its own. *)
Theorem iteration_is_repeatable E v et records rest w :
  heap w !! exif_tool v = Some et -> running et = false ->
  popen_ok E (executable et) = true ->
  stays_alive E (next_pid w) w -> stays_alive E (S (next_pid w)) w ->
  answer E (mkPopen (next_pid w) [] []) (PStr "-r" :: file_paths v)
  = Some (records, rest) ->
  let views := map (fun r => FileMetadata_init r (exif_tool v)) records in
  let n := next_pid w in
  exists data w',
    (let! first := MultiFileMetadata_iter E v in
     let! second := MultiFileMetadata_iter E v in
     ret (first, second)) w
    = (Returns (views, views), w')
    /\ heap w' !! exif_tool v = Some (mkExifTool (executable et) false None)
    /\ trace w' = trace w
         ++ [Spawned n (argv_of (executable et)); Sent n data;
             Sent n stay_open_false; Waited n;
             Spawned (S n) (argv_of (executable et)); Sent (S n) data;
             Sent (S n) stay_open_false; Waited (S n)].
Proof.
  intros H Hr Hpopen Hlive Hlive' Hans views n.
  destruct (multi_execute_private E v et _ records rest w H Hr Hpopen Hlive Hans)
    as (data & Hdata & Hfirst).
  set (w1 := store _ _ _) in Hfirst.
  destruct (multi_execute_private E v (mkExifTool (executable et) false None)
              (PStr "-r" :: file_paths v) records rest w1)
    as (data' & Hdata' & Hsecond);
    [subst w1; heap_tac|done|done|subst w1; simpl next_pid; alive_tac|exact Hans|].
  assert (data' = data) as ->.
  { change (json_request E (mkPopen (next_pid w) [] []) (PStr "-r" :: file_paths v)
            = Some data') in Hdata'.
    congruence. }
  exists data. eexists. split; [|split].
  - unfold MultiFileMetadata_iter.
    erewrite bind_returns.
    2:{ by erewrite bind_returns by exact Hfirst. }
    erewrite bind_returns.
    2:{ by erewrite bind_returns by exact Hsecond. }
    reflexivity.
  - heap_tac.
  - subst w1. simpl. by rewrite <- !app_assoc.
Qed.

Lemma iteration_is_repeatable_witness :
  exists data w',
    (let! first := MultiFileMetadata_iter photo_env sample_view in
     let! second := MultiFileMetadata_iter photo_env sample_view in
     ret (first, second)) idle_world
    = (Returns (map (fun r => FileMetadata_init r 0) [source_a; source_b],
                map (fun r => FileMetadata_init r 0) [source_a; source_b]), w')
    /\ heap w' !! 0 = Some idle_session
    /\ trace w' = [Spawned 0 (argv_of "exiftool"); Sent 0 data;
                   Sent 0 stay_open_false; Waited 0;
                   Spawned 1 (argv_of "exiftool"); Sent 1 data;
                   Sent 1 stay_open_false; Waited 1].
Proof.
  apply (iteration_is_repeatable photo_env sample_view idle_session
           [source_a; source_b] [] idle_world eq_refl eq_refl eq_refl
           (fun _ => eq_refl) (fun _ => eq_refl)).
  vm_compute. reflexivity.
Defined.

(** ** The stay-open protocol *)

Lemma protocol_state_snoc t ev :
  protocol_state (t ++ [ev]) = protocol_step (protocol_state t) ev.
Proof. unfold protocol_state. by rewrite foldl_app. Qed.

Lemma handle_lt w et p :
  session_ok w et = true -> handle_of et = Some p -> p < next_pid w.
Proof.
  unfold session_ok, handle_of. destruct (_process et) as [pr|]; [|done].
  intros [_ Hlt%bool_decide_eq_true]%andb_true_iff [= <-]. done.
Qed.

Lemma held_lt w p : world_ok w -> held w p -> p < next_pid w.
Proof.
  intros Hok (i & et & H & Hp). eapply handle_lt; [|done].
  by eapply world_ok_lookup.
Qed.

Lemma protocol_ok_empty : protocol_ok empty_world.
Proof.
  split; [constructor|]. split; [by intros i j eti etj p H|].
  exists ∅, ∅. split; [done|]. split; [|set_solver].
  intros p. split; [set_solver|]. by intros (i & et & H & _).
Qed.

Lemma protocol_ok_alloc exe w :
  protocol_ok w -> protocol_ok (alloc (mkExifTool exe false None) w).
Proof.
  intros (Hok & Huniq & alive & dead & Hstate & Halive & Hdead).
  assert (forall i et p,
    heap (alloc (mkExifTool exe false None) w) !! i = Some et ->
    handle_of et = Some p -> heap w !! i = Some et) as Hold.
  { intros i et p [H|[_ H]]%lookup_app_Some Hp; [done|].
    apply list_lookup_singleton_Some in H as [_ <-]. done. }
  split; [by apply world_ok_alloc|]. split.
  - intros i j eti etj p Hi Hj Hpi Hpj.
    eapply Huniq; [by eapply Hold|by eapply Hold|done..].
  - exists alive, dead. split; [done|]. split; [|done].
    intros p. rewrite Halive. split.
    + intros (i & et & H & Hp). exists i, et. split; [|done].
      simpl. by apply lookup_app_l_Some.
    + intros (i & et & H & Hp). exists i, et. split; [by eapply Hold|done].
Qed.

Lemma protocol_ok_warn msg w : protocol_ok w -> protocol_ok (log (Warned msg) w).
Proof.
  intros (Hok & Huniq & alive & dead & Hstate & Halive & Hdead).
  split; [done|]. split; [done|]. exists alive, dead.
  split; [|done]. simpl. by rewrite protocol_state_snoc, Hstate.
Qed.

Lemma lookup_store self et w i et0 :
  heap (store self et w) !! i = Some et0 ->
  (i = self /\ et0 = et) \/ (i <> self /\ heap w !! i = Some et0).
Proof.
  simpl. intros [(-> & -> & _)|[Hne H]]%list_lookup_insert_Some; [by left|].
  right. split; [congruence|done].
Qed.

(** The store after [start] has launched a process. *)
Lemma protocol_ok_start self et argv w :
  protocol_ok w -> heap w !! self = Some et -> running et = false ->
  protocol_ok (store self (mkExifTool (executable et) true
                             (Some (mkPopen (next_pid w) [] [])))
                 (spawn argv w)).
Proof.
  intros (Hok & Huniq & alive & dead & Hstate & Halive & Hdead) H Hr.
  pose proof (session_ok_stopped _ _ (world_ok_lookup _ _ _ Hok H) Hr) as Het.
  set (et' := mkExifTool _ _ _).
  assert (world_ok (store self et' (spawn argv w))) as Hok'.
  { apply world_ok_store; [by apply world_ok_spawn|].
    unfold session_ok. simpl. apply bool_decide_eq_true. lia. }
  assert (forall i et0 p, i <> self -> heap w !! i = Some et0 ->
                          handle_of et0 = Some p -> p <> next_pid w) as Hfresh.
  { intros i et0 p _ Hi Hp.
    pose proof (handle_lt _ _ _ (world_ok_lookup _ _ _ Hok Hi) Hp). lia. }
  split; [done|]. split.
  - intros i j eti etj p Hi Hj Hpi Hpj.
    apply lookup_store in Hi as [[-> ->]|[Hni Hi]];
      apply lookup_store in Hj as [[-> ->]|[Hnj Hj]]; [done| | |by eapply Huniq].
    + injection Hpi as <-. by edestruct Hfresh.
    + injection Hpj as <-. by edestruct Hfresh.
  - exists ({[next_pid w]} ∪ alive), dead. split; [|split].
    + simpl. rewrite protocol_state_snoc, Hstate. simpl.
      rewrite bool_decide_false; [done|].
      intros [Hin%Halive|Hin%Hdead]%elem_of_union; [|lia].
      apply (held_lt _ _ Hok) in Hin. lia.
    + intros p. rewrite elem_of_union, elem_of_singleton, Halive. split.
      * intros [->|(i & et0 & Hi & Hp)].
        -- exists self, et'. split; [|done]. by eapply heap_store.
        -- exists i, et0. split; [|done].
           rewrite heap_store_ne; [done|]. intros <-.
           rewrite H in Hi. injection Hi as <-. by rewrite Het in Hp.
      * intros (i & et0 & [[-> ->]|[Hne Hi]]%lookup_store & Hp).
        -- left. by injection Hp.
        -- right. by exists i, et0.
    + intros p Hp%Hdead. simpl. lia.
Qed.

(** The store after [terminate] has closed the process [p]. *)
Lemma protocol_ok_terminate self et p data w :
  protocol_ok w -> heap w !! self = Some et -> _process et = Some p ->
  protocol_ok (store self (mkExifTool (executable et) false None)
                 (log (Waited (pid p)) (log (Sent (pid p) data) w))).
Proof.
  intros (Hok & Huniq & alive & dead & Hstate & Halive & Hdead) H Hp.
  assert (handle_of et = Some (pid p)) as Hhandle by (unfold handle_of; by rewrite Hp).
  assert (pid p ∈ alive) as Hin by (apply Halive; by exists self, et).
  split; [by apply world_ok_store|]. split.
  - intros i j eti etj q Hi Hj Hqi Hqj.
    apply lookup_store in Hi as [[-> ->]|[Hni Hi]]; [done|].
    apply lookup_store in Hj as [[-> ->]|[Hnj Hj]]; [done|]. by eapply Huniq.
  - exists (alive ∖ {[pid p]}), ({[pid p]} ∪ dead). split; [|split].
    + simpl. rewrite !protocol_state_snoc, Hstate. simpl.
      rewrite bool_decide_true by done. simpl. by rewrite bool_decide_true.
    + intros q. rewrite elem_of_difference, elem_of_singleton, Halive. split.
      * intros [(i & et0 & Hi & Hq) Hne]. exists i, et0. split; [|done].
        rewrite heap_store_ne; [done|]. intros <-.
        rewrite H in Hi. injection Hi as <-. congruence.
      * intros (i & et0 & [[-> ->]|[Hne Hi]]%lookup_store & Hq); [done|].
        split; [by exists i, et0|]. intros ->.
        apply Hne. by eapply Huniq.
    + intros q [->%elem_of_singleton|Hq%Hdead]%elem_of_union; [|done].
      simpl. exact (handle_lt w et _ (world_ok_lookup _ _ _ Hok H) Hhandle).
Qed.

(** The store after a flush to the process [p] has failed. *)
Lemma protocol_ok_buffer self et p buffer rest w :
  protocol_ok w -> heap w !! self = Some et -> _process et = Some p ->
  protocol_ok (store self (mkExifTool (executable et) true
                             (Some (mkPopen (pid p) buffer rest))) w).
Proof.
  intros (Hok & Huniq & alive & dead & Hstate & Halive & Hdead) H Hp.
  assert (handle_of et = Some (pid p)) as Hhandle by (unfold handle_of; by rewrite Hp).
  pose proof (handle_lt _ _ _ (world_ok_lookup _ _ _ Hok H) Hhandle) as Hlt.
  set (et' := mkExifTool _ _ _).
  assert (forall i et0 q, heap (store self et' w) !! i = Some et0 ->
                          handle_of et0 = Some q ->
                          exists et1, heap w !! i = Some et1 /\ handle_of et1 = Some q) as Hold.
  { intros i et0 q [[-> ->]|[Hne Hi]]%lookup_store Hq; [|by exists et0].
    exists et. split; [done|]. rewrite Hhandle. exact Hq. }
  split; [|split].
  - apply world_ok_store; [done|]. unfold session_ok. simpl.
    by apply bool_decide_eq_true.
  - intros i j eti etj q Hi Hj Hqi Hqj.
    destruct (Hold _ _ _ Hi Hqi) as (eti' & Hi' & Hqi').
    destruct (Hold _ _ _ Hj Hqj) as (etj' & Hj' & Hqj'). by eapply Huniq.
  - exists alive, dead. split; [done|]. split; [|done].
    intros q. rewrite Halive. split.
    + intros (i & et0 & Hi & Hq). destruct (decide (i = self)) as [->|Hne].
      * exists self, et'. split; [by eapply heap_store|].
        rewrite H in Hi. injection Hi as <-. by rewrite <- Hq.
      * exists i, et0. split; [|done]. by rewrite heap_store_ne.
    + intros (i & et0 & Hi & Hq).
      destruct (Hold _ _ _ Hi Hq) as (et1 & Hi' & Hq'). by exists i, et1.
Qed.

(** The store after [execute] has sent a request to the process [p]. *)
Lemma protocol_ok_execute self et p buffer rest data w :
  protocol_ok w -> heap w !! self = Some et -> _process et = Some p ->
  protocol_ok (store self (mkExifTool (executable et) true
                             (Some (mkPopen (pid p) buffer rest)))
                 (log (Sent (pid p) data) w)).
Proof.
  intros (Hok & Huniq & alive & dead & Hstate & Halive & Hdead) H Hp.
  assert (handle_of et = Some (pid p)) as Hhandle by (unfold handle_of; by rewrite Hp).
  assert (pid p ∈ alive) as Hin by (apply Halive; by exists self, et).
  pose proof (handle_lt _ _ _ (world_ok_lookup _ _ _ Hok H) Hhandle) as Hlt.
  set (et' := mkExifTool _ _ _).
  assert (forall i et0 q, heap (store self et' (log (Sent (pid p) data) w)) !! i = Some et0 ->
                          handle_of et0 = Some q ->
                          exists et1, heap w !! i = Some et1 /\ handle_of et1 = Some q) as Hold.
  { intros i et0 q [[-> ->]|[Hne Hi]]%lookup_store Hq; [|by exists et0].
    exists et. split; [done|]. rewrite Hhandle. exact Hq. }
  split; [|split].
  - apply world_ok_store; [done|]. unfold session_ok. simpl.
    by apply bool_decide_eq_true.
  - intros i j eti etj q Hi Hj Hqi Hqj.
    destruct (Hold _ _ _ Hi Hqi) as (eti' & Hi' & Hqi').
    destruct (Hold _ _ _ Hj Hqj) as (etj' & Hj' & Hqj'). by eapply Huniq.
  - exists alive, dead. split; [|split; [|done]].
    + simpl. rewrite protocol_state_snoc, Hstate. simpl. by rewrite bool_decide_true.
    + intros q. rewrite Halive. split.
      * intros (i & et0 & Hi & Hq). destruct (decide (i = self)) as [->|Hne].
        -- exists self, et'. split; [by eapply heap_store|].
           rewrite H in Hi. injection Hi as <-. by rewrite <- Hq.
        -- exists i, et0. split; [|done]. by rewrite heap_store_ne.
      * intros (i & et0 & Hi & Hq).
        destruct (Hold _ _ _ Hi Hq) as (et1 & Hi' & Hq'). by exists i, et1.
Qed.

Section Protocol.
Context (E : Env).

Lemma keeps_bind {A B} I (m : M A) (k : A -> M B) :
  keeps I m -> (forall a, keeps I (k a)) -> keeps I (bind m k).
Proof.
  intros Hm Hk w r w' HI. unfold bind.
  destruct (m w) as [[a|e|] w0] eqn:Hrun.
  - intros Hrun'. eapply (Hk a); [|done]. by eapply Hm.
  - intros [= <- <-]. by eapply Hm.
  - intros [= <- <-]. by eapply Hm.
Qed.

Lemma keeps_ret {A} I (a : A) : keeps I (ret a).
Proof. by intros w r w' HI [= <- <-]. Qed.

Lemma keeps_raise {A} I e : keeps I (@raise A e).
Proof. by intros w r w' HI [= <- <-]. Qed.

Lemma ExifTool_init_follows executable_ : keeps protocol_ok (ExifTool_init executable_).
Proof. intros w r w' HI [= <- <-]. by apply protocol_ok_alloc. Qed.

Lemma start_follows self : keeps protocol_ok (start E self).
Proof.
  intros w r w' HI. destruct (heap w !! self) as [et|] eqn:H.
  - destruct (running et) eqn:Hr.
    + rewrite (start_running E self et w H Hr). intros [= <- <-].
      by apply protocol_ok_warn.
    + destruct (popen_ok E (executable et)) eqn:Hpopen.
      * rewrite (start_stopped E self et w H Hr Hpopen). intros [= <- <-].
        by apply protocol_ok_start.
      * rewrite (start_popen_fails E self et w H Hr Hpopen). by intros [= <- <-].
  - unfold start. rewrite deref_none by done. by intros [= <- <-].
Qed.

Lemma terminate_follows self : keeps protocol_ok (terminate E self).
Proof.
  intros w r w' HI. destruct (heap w !! self) as [et|] eqn:H.
  - destruct (running et) eqn:Hr.
    + destruct (session_ok_running _ _ (world_ok_lookup _ _ _ (proj1 HI) H) Hr)
        as (p & Hp & _).
      destruct (exits E (pid p) (trace w)) eqn:Hlive.
      * rewrite (terminate_broken E self et p w H Hr Hp Hlive). intros [= <- <-].
        by apply protocol_ok_buffer.
      * rewrite (terminate_running E self et p w H Hr Hp Hlive). intros [= <- <-].
        by apply protocol_ok_terminate.
    + rewrite (terminate_stopped E self et w H Hr). by intros [= <- <-].
  - unfold terminate. rewrite deref_none by done. by intros [= <- <-].
Qed.

Lemma execute_follows self params : keeps protocol_ok (execute E self params).
Proof.
  intros w r w' HI. destruct (heap w !! self) as [et|] eqn:H.
  - destruct (running et) eqn:Hr.
    + destruct (session_ok_running _ _ (world_ok_lookup _ _ _ (proj1 HI) H) Hr)
        as (p & Hp & _).
      destruct (exits E (pid p) (trace w)) eqn:Hlive.
      * rewrite (execute_broken E self et p params w H Hr Hp Hlive). intros [= <- <-].
        by apply protocol_ok_buffer.
      * rewrite (execute_running E self et p params w H Hr Hp Hlive). cbv zeta.
        destruct (read_until_sentinel _ _) as [[output rest]|]; intros [= <- <-];
          by apply protocol_ok_execute.
    + rewrite (execute_stopped E self et params w H Hr). by intros [= <- <-].
  - unfold execute. rewrite deref_none by done. by intros [= <- <-].
Qed.

Lemma execute_json_follows self params : keeps protocol_ok (execute_json E self params).
Proof.
  unfold execute_json. destruct (mapM (fsencode E) params) as [encoded|].
  - apply keeps_bind; [apply execute_follows|].
    intros raw. destruct (json_loads E raw); [apply keeps_ret|apply keeps_raise].
  - apply keeps_raise.
Qed.

Lemma with_follows {A} self (body : nat -> M A) :
  (forall et, keeps protocol_ok (body et)) -> keeps protocol_ok (with_ E self body).
Proof.
  intros Hbody. unfold with_. apply keeps_bind.
  - unfold __enter__. apply keeps_bind; [apply start_follows|].
    intros _. apply keeps_ret.
  - intros et w r w' HI.
    destruct (body et w) as [r0 w0] eqn:Hrun.
    pose proof (Hbody et w r0 w0 HI Hrun) as HI0.
    unfold __exit__.
    destruct (terminate E self w0) as [r1 w1] eqn:Hterm.
    pose proof (terminate_follows self w0 r1 w1 HI0 Hterm) as HI1.
    destruct r0 as [a|e|]; [| |by intros [= <- <-]];
      destruct r1 as [[]|e1|]; by intros [= <- <-].
Qed.

Lemma multi_execute_follows v params :
  keeps protocol_ok (MultiFileMetadata_execute E v params).
Proof.
  unfold MultiFileMetadata_execute.
  intros w r w' HI. destruct (heap w !! exif_tool v) as [et|] eqn:H.
  - rewrite (bind_returns _ _ _ _ _ (deref_some _ _ _ H)).
    destruct (running et).
    + by apply execute_json_follows.
    + apply with_follows; [|done]. intros et'. apply execute_json_follows.
  - rewrite deref_none by done. by intros [= <- <-].
Qed.

Lemma ExifTool_metadata_follows self file_paths :
  keeps protocol_ok (ExifTool_metadata E self file_paths).
Proof.
  unfold ExifTool_metadata.
  destruct file_paths as [|file_path [|second rest]]; [apply keeps_ret| |apply keeps_ret].
  destruct (isfile E file_path); [|apply keeps_ret].
  apply keeps_bind; [apply execute_json_follows|].
  intros [|exif_values others]; [apply keeps_raise|apply keeps_ret].
Qed.

End Protocol.

(** X15: every public operation keeps the stay-open protocol, however
    it ends.  In a store that satisfies [protocol_ok], and so in every
    store reached from the empty one by these operations: each request
    or directive was sent to a process that had been launched and not
    yet waited for, each process is waited for at most once and no
    process id is launched twice, the processes still alive are exactly
    the handles of the sessions, and no two sessions hold the same
    process; so no subprocess is lost and none is written to after it
    was closed. *)
Theorem operations_follow_protocol E :
  (forall executable_, keeps protocol_ok (batch executable_))
  /\ (forall self, keeps protocol_ok (start E self))
  /\ (forall self, keeps protocol_ok (terminate E self))
  /\ (forall self params, keeps protocol_ok (execute E self params))
  /\ (forall self params, keeps protocol_ok (execute_json E self params))
  /\ (forall self file_paths, keeps protocol_ok (ExifTool_metadata E self file_paths))
  /\ (forall v, keeps protocol_ok (MultiFileMetadata_iter E v))
  /\ (forall v key, keeps protocol_ok (MultiFileMetadata_getitem E v key))
  /\ (forall file_paths, keeps protocol_ok (metadata E file_paths)).
Proof.
  split; [exact ExifTool_init_follows|].
  split; [exact (start_follows E)|].
  split; [exact (terminate_follows E)|].
  split; [exact (execute_follows E)|].
  split; [exact (execute_json_follows E)|].
  split; [exact (ExifTool_metadata_follows E)|].
  split; [|split].
  - intros v. apply keeps_bind; [apply multi_execute_follows|].
    intros records. apply keeps_ret.
  - intros v key. apply keeps_bind; [apply multi_execute_follows|].
    intros records. apply keeps_ret.
  - intros file_paths. unfold metadata.
    apply keeps_bind; [apply ExifTool_init_follows|].
    intros et. apply with_follows. intros et'. apply ExifTool_metadata_follows.
Qed.

Lemma operations_follow_protocol_witness :
  protocol_ok empty_world
  /\ protocol_ok (snd (metadata photo_env [PStr "a.jpg"] empty_world)).
Proof.
  split; [exact protocol_ok_empty|].
  exact (proj2 (proj2 (proj2 (proj2 (proj2 (proj2 (proj2 (proj2
           (operations_follow_protocol photo_env))))))))
           [PStr "a.jpg"] empty_world _ _ protocol_ok_empty (surjective_pairing _)).
Defined.

(** What the protocol state of a store that follows the protocol says
    about its trace: a request is never sent to a process that has been
    waited for. *)
Example no_send_after_wait :
  protocol_state [Spawned 0 (argv_of "exiftool"); Sent 0 stay_open_false; Waited 0;
                  Sent 0 (request [])]
  = None.
Proof. by vm_compute. Qed.

(** ** Making and starting a session *)

(** X16: [batch] makes a stopped session and launches nothing; the
    first [start] of that session launches the executable given to
    [batch], or [exiftool] when none was given, with the stay-open
    arguments, and the session then runs on that new process with empty
    pipes. *)
Theorem batch_then_start E executable_ w :
  popen_ok E (default executable_default executable_) = true ->
  let exe := default executable_default executable_ in
  batch executable_ w
  = (Returns (length (heap w)), alloc (mkExifTool exe false None) w)
  /\ exists w',
       (let! et := batch executable_ in do! start E et in ret et) w
       = (Returns (length (heap w)), w')
       /\ heap w' = heap w ++ [mkExifTool exe true (Some (mkPopen (next_pid w) [] []))]
       /\ trace w' = trace w
            ++ [Spawned (next_pid w)
                  [exe; "-stay_open"; "True"; "-@"; "-"; "-common_args"; "-G"; "-n"]]
       /\ next_pid w' = S (next_pid w).
Proof.
  intros Hpopen exe. split; [done|]. eexists. split.
  - unfold batch, ExifTool_init. erewrite bind_returns by reflexivity.
    erewrite bind_returns; [reflexivity|].
    eapply start_stopped; [apply heap_alloc|done..].
  - simpl. split; [|done].
    rewrite insert_app_r_alt by done. by rewrite Nat.sub_diag.
Qed.

Lemma batch_then_start_witness :
  exists w',
    (let! et := batch (Some "/opt/bin/exiftool") in do! start photo_env et in ret et)
      empty_world
    = (Returns 0, w')
    /\ heap w' = [mkExifTool "/opt/bin/exiftool" true (Some (mkPopen 0 [] []))]
    /\ trace w' = [Spawned 0 ["/opt/bin/exiftool"; "-stay_open"; "True"; "-@"; "-";
                              "-common_args"; "-G"; "-n"]]
    /\ next_pid w' = 1.
Proof.
  exact (proj2 (batch_then_start photo_env (Some "/opt/bin/exiftool") empty_world eq_refl)).
Defined.

(** ** A query that fails inside the private session *)

(** X17: on a stopped session, iterating a view with a path that
    cannot be encoded raises the encoding error out of the [with]
    block: a process has been launched for the call and, not having
    exited at once, is closed again without any query sent to it, and
    the session is left stopped. *)
Theorem iteration_unencodable_path E v et w :
  heap w !! exif_tool v = Some et -> running et = false ->
  popen_ok E (executable et) = true ->
  exits E (next_pid w) (trace w ++ [Spawned (next_pid w) (argv_of (executable et))])
  = false ->
  mapM (fsencode E) (PStr "-r" :: file_paths v) = None ->
  MultiFileMetadata_iter E v w
  = (Raises UnicodeEncodeError,
     store (exif_tool v) (mkExifTool (executable et) false None)
       (log (Waited (next_pid w))
          (log (Sent (next_pid w) stay_open_false)
             (spawn (argv_of (executable et)) w)))).
Proof.
  intros H Hr Hpopen Hlive Henc.
  unfold MultiFileMetadata_iter, MultiFileMetadata_execute.
  erewrite bind_raises; [done|].
  rewrite (bind_returns _ _ _ _ _ (deref_some _ _ _ H)). rewrite Hr.
  unfold with_, __enter__.
  erewrite bind_returns.
  2:{ erewrite bind_returns by (by eapply start_stopped). reflexivity. }
  rewrite execute_json_unencodable by done. unfold __exit__.
  erewrite terminate_running; [|heap_tac|done..].
  by norm_store.
Qed.

Lemma iteration_unencodable_path_witness :
  MultiFileMetadata_iter ascii_env
    (mkMultiFileMetadata [PStr (String (Ascii.ascii_of_nat 233) ".jpg")] 0) idle_world
  = (Raises UnicodeEncodeError,
     store 0 idle_session
       (log (Waited 0) (log (Sent 0 stay_open_false)
                          (spawn (argv_of "exiftool") idle_world)))).
Proof.
  apply (iteration_unencodable_path ascii_env
           (mkMultiFileMetadata [PStr (String (Ascii.ascii_of_nat 233) ".jpg")] 0)
           idle_session idle_world eq_refl eq_refl eq_refl eq_refl).
  vm_compute. reflexivity.
Defined.
